(** * eclipse-finder: location parsing and visibility matching

    A shallow embedding of [eclipse-app/location_resolver.py] and
    [eclipse_app/eclipse_matcher.py], and the properties of the parser, the
    postal resolver, the alias tables and the matcher that the specification
    states.

    Text model.  A Python [str] is a Rocq [string]; the character classes
    (whitespace, decimal digits, letters, word characters) and the case
    mappings are those of Python restricted to ASCII, and a character above
    127 belongs to no class and has no case.  The model therefore agrees
    with Python on ASCII text ([PyStr.isascii], Python's [str.isascii]),
    and a property of arbitrary text whose truth depends on a character
    class is stated for ASCII text.  Python dictionaries are
    [gmap]s, Python sets are [gset]s, [Optional[str]] is [option string] with
    Python's truthiness written out ([None] and the empty string are false). *)

From Stdlib Require Import String Ascii List ZArith Bool Lia.
From stdpp Require Import base gmap strings list fin_maps.

Local Open Scope string_scope.

(** ** Python string operations *)

Module PyStr.

(** [bool(s)] for a string. *)
Definition nonempty (s : string) : bool :=
  match s with EmptyString => false | String _ _ => true end.

(** [bool(o)] for an [Optional[str]]. *)
Definition truthy (o : option string) : bool :=
  match o with Some s => nonempty s | None => false end.

Definition between (lo hi : nat) (c : ascii) : bool :=
  (lo <=? nat_of_ascii c)%nat && (nat_of_ascii c <=? hi)%nat.

(** [c.isspace()]: TAB, LF, VT, FF, CR, the four separators FS..US, space. *)
Definition isspace (c : ascii) : bool := between 9 13 c || between 28 32 c.

(** [\d] *)
Definition isdigit (c : ascii) : bool := between 48 57 c.

Definition isupper (c : ascii) : bool := between 65 90 c.
Definition islower (c : ascii) : bool := between 97 122 c.

(** [[A-Za-z]] *)
Definition isalpha (c : ascii) : bool := isupper c || islower c.

(** [\w] *)
Definition isword (c : ascii) : bool :=
  isalpha c || isdigit c || Ascii.eqb c "_"%char.

Definition lower_char (c : ascii) : ascii :=
  if isupper c then ascii_of_nat (nat_of_ascii c + 32) else c.

Definition upper_char (c : ascii) : ascii :=
  if islower c then ascii_of_nat (nat_of_ascii c - 32) else c.

Fixpoint map_chars (f : ascii -> ascii) (s : string) : string :=
  match s with
  | EmptyString => EmptyString
  | String c s' => String (f c) (map_chars f s')
  end.

(** [s.lower()], [s.upper()] *)
Definition lower : string -> string := map_chars lower_char.
Definition upper : string -> string := map_chars upper_char.

Fixpoint filter_chars (p : ascii -> bool) (s : string) : string :=
  match s with
  | EmptyString => EmptyString
  | String c s' => if p c then String c (filter_chars p s') else filter_chars p s'
  end.

Fixpoint lstrip_with (p : ascii -> bool) (s : string) : string :=
  match s with
  | EmptyString => EmptyString
  | String c s' => if p c then lstrip_with p s' else s
  end.

Fixpoint rstrip_with (p : ascii -> bool) (s : string) : string :=
  match s with
  | EmptyString => EmptyString
  | String c s' =>
      match rstrip_with p s' with
      | EmptyString => if p c then EmptyString else String c EmptyString
      | r => String c r
      end
  end.

Definition strip_with (p : ascii -> bool) (s : string) : string :=
  rstrip_with p (lstrip_with p s).

(** [s.strip()] *)
Definition strip : string -> string := strip_with isspace.

Fixpoint char_in (chars : string) (c : ascii) : bool :=
  match chars with
  | EmptyString => false
  | String d chars' => Ascii.eqb c d || char_in chars' c
  end.

(** [s.strip(chars)] *)
Definition strip_chars (chars : string) : string -> string :=
  strip_with (char_in chars).

(** [s.split(sep)] for a one-character separator: empty fields are kept. *)
Fixpoint split_on (sep : ascii) (s : string) : list string :=
  match s with
  | EmptyString => [EmptyString]
  | String c s' =>
      if Ascii.eqb c sep then EmptyString :: split_on sep s'
      else match split_on sep s' with
           | field :: fields => String c field :: fields
           | [] => [String c EmptyString]
           end
  end.

(** [s.split()]: the maximal runs of characters that are not whitespace. *)
Fixpoint split_ws (s : string) : list string :=
  match s with
  | EmptyString => []
  | String c s' =>
      if isspace c then split_ws s'
      else match s' with
           | EmptyString => [String c EmptyString]
           | String c' _ =>
               if isspace c' then String c EmptyString :: split_ws s'
               else match split_ws s' with
                    | word :: words => String c word :: words
                    | [] => [String c EmptyString]
                    end
           end
  end.

(** [re.sub(r"\s+", " ", s)]: every run of whitespace becomes one space
    (written when the last character of the run is reached). *)
Fixpoint collapse_ws (s : string) : string :=
  match s with
  | EmptyString => EmptyString
  | String c s' =>
      if isspace c then
        match s' with
        | String c' _ => if isspace c' then collapse_ws s' else String " " (collapse_ws s')
        | EmptyString => String " " EmptyString
        end
      else String c (collapse_ws s')
  end.

(** [s[:n]] *)
Fixpoint take (n : nat) (s : string) : string :=
  match n, s with
  | S n', String c s' => String c (take n' s')
  | _, _ => EmptyString
  end.

(** [int(s)] on a string of decimal digits; [None] is Python's
    [ValueError] (empty string, or a character that is no digit). *)
Fixpoint int_digits (acc : Z) (s : string) : option Z :=
  match s with
  | EmptyString => Some acc
  | String c s' =>
      if isdigit c then int_digits (10 * acc + Z.of_nat (nat_of_ascii c - 48)) s'
      else None
  end.

Definition int (s : string) : option Z :=
  if nonempty s then int_digits 0 s else None.

(** [all(p(c) for c in s)] *)
Fixpoint all_chars (p : ascii -> bool) (s : string) : bool :=
  match s with
  | EmptyString => true
  | String c s' => p c && all_chars p s'
  end.

(** [s.startswith(prefix)] *)
Fixpoint startswith (s prefix : string) : bool :=
  match prefix, s with
  | EmptyString, _ => true
  | String p prefix', String c s' => Ascii.eqb c p && startswith s' prefix'
  | String _ _, EmptyString => false
  end.

(** [sep.join(parts)] *)
Fixpoint join (sep : string) (parts : list string) : string :=
  match parts with
  | [] => EmptyString
  | [part] => part
  | part :: parts' => part ++ sep ++ join sep parts'
  end.

(** [s.isascii()] *)
Definition isascii (s : string) : bool :=
  all_chars (fun c => (nat_of_ascii c <? 128)%nat) s.

End PyStr.

(** ** The regular expressions of the source *)

Module Re.
Import PyStr.

(** The fragment of [re] the two postal patterns use. *)
Inductive regex : Type :=
| Cls (p : ascii -> bool)         (* a character class *)
| Chr (c : ascii)                 (* a literal character *)
| Eps
| Seq (r1 r2 : regex)
| Opt (r : regex).                (* r? , greedy *)

(** r{n} *)
Fixpoint Rep (n : nat) (r : regex) : regex :=
  match n with
  | O => Eps
  | S n' => Seq r (Rep n' r)
  end.

(** Backtracking matcher: every way of matching a prefix of [s] with [r],
    as the list of what is left of [s], in the order the engine tries. *)
Fixpoint run (r : regex) (s : string) : list string :=
  match r with
  | Cls p => match s with
             | String c s' => if p c then [s'] else []
             | EmptyString => []
             end
  | Chr d => match s with
             | String c s' => if Ascii.eqb c d then [s'] else []
             | EmptyString => []
             end
  | Eps => [s]
  | Seq r1 r2 => flat_map (run r2) (run r1 s)
  | Opt r1 => run r1 s ++ [s]
  end.

(** [re.fullmatch(r, s)] as a truth value: some way of matching consumes
    all of [s]. *)
Definition fullmatch (r : regex) (s : string) : bool :=
  existsb (fun rest => negb (nonempty rest)) (run r s).

(** [\d{5}(?:-\d{4})?] *)
Definition zip_re : regex :=
  Seq (Rep 5 (Cls isdigit)) (Opt (Seq (Chr "-") (Rep 4 (Cls isdigit)))).

(** [[A-Za-z]\d[A-Za-z](?:\s?\d[A-Za-z]\d)?] *)
Definition canadian_re : regex :=
  Seq (Cls isalpha) (Seq (Cls isdigit) (Seq (Cls isalpha)
    (Opt (Seq (Opt (Cls isspace))
           (Seq (Cls isdigit) (Seq (Cls isalpha) (Cls isdigit))))))).

(** [re.search(r"\b([A-Za-z]{2})$", s)]: the leftmost position at which a
    word boundary is followed by two letters and the end of the string
    (or a newline that ends the string).  [prev] is the character before
    the position, [i] the position.  Returns [(match.start(), group(1))]. *)
Fixpoint search_trailing_from (prev : option ascii) (i : nat) (s : string)
  : option (nat * string) :=
  match s with
  | EmptyString => None
  | String c s' =>
      let boundary :=
        xorb (match prev with Some p => isword p | None => false end) (isword c) in
      let here :=
        match s' with
        | String d rest =>
            boundary && isalpha c && isalpha d
            && (match rest with
                | EmptyString => true
                | String n EmptyString => Ascii.eqb n "010"%char
                | _ => false
                end)
        | EmptyString => false
        end in
      if here then Some (i, take 2 s)
      else search_trailing_from (Some c) (S i) s'
  end.

Definition search_trailing (s : string) : option (nat * string) :=
  search_trailing_from None 0 s.

End Re.

(** ** Alias tables *)

(** A dict display [{k1: v1, ...}]: the pairs are inserted from left to
    right, a later pair replacing an earlier one with the same key. *)
Definition dict_of {V : Type} (items : list (string * V)) : gmap string V :=
  foldl (fun d kv => <[kv.1 := kv.2]> d) ∅ items.

(** The pairs of [_COUNTRY_CANONICAL] in the order of the source; its keys
    are pairwise distinct, so this list is also what [.items()] iterates. *)
Definition _COUNTRY_CANONICAL_items : list (string * string) :=
  [ ("united states", "United States");
    ("united states of america", "United States");
    ("usa", "United States");
    ("us", "United States");
    ("canada", "Canada");
    ("mexico", "Mexico");
    ("spain", "Spain");
    ("france", "France");
    ("united kingdom", "United Kingdom");
    ("uk", "United Kingdom");
    ("great britain", "United Kingdom");
    ("ireland", "Ireland");
    ("portugal", "Portugal");
    ("brazil", "Brazil");
    ("argentina", "Argentina");
    ("chile", "Chile");
    ("peru", "Peru");
    ("greenland", "Greenland");
    ("iceland", "Iceland");
    ("morocco", "Morocco");
    ("algeria", "Algeria");
    ("libya", "Libya");
    ("egypt", "Egypt");
    ("saudi arabia", "Saudi Arabia");
    ("uae", "United Arab Emirates");
    ("united arab emirates", "United Arab Emirates");
    ("oman", "Oman");
    ("yemen", "Yemen");
    ("india", "India");
    ("bangladesh", "Bangladesh");
    ("china", "China");
    ("japan", "Japan");
    ("south korea", "South Korea");
    ("korea", "South Korea");
    ("pakistan", "Pakistan");
    ("nigeria", "Nigeria");
    ("kenya", "Kenya");
    ("south africa", "South Africa");
    ("germany", "Germany");
    ("italy", "Italy");
    ("tunisia", "Tunisia");
    ("new zealand", "New Zealand");
    ("australia", "Australia") ].

Definition _COUNTRY_CANONICAL : gmap string string :=
  dict_of _COUNTRY_CANONICAL_items.

Definition _COUNTRY_MACROREGIONS_items : list (string * list string) :=
  [ ("United States", ["north america"]);
    ("Canada", ["north america"]);
    ("Mexico", ["north america"]);
    ("Greenland", ["north america"; "arctic"]);
    ("Iceland", ["europe"; "north atlantic"]);
    ("Spain", ["europe"]);
    ("France", ["europe"]);
    ("United Kingdom", ["europe"]);
    ("Ireland", ["europe"]);
    ("Portugal", ["europe"]);
    ("Germany", ["europe"]);
    ("Italy", ["europe"]);
    ("Morocco", ["africa"; "north africa"]);
    ("Algeria", ["africa"; "north africa"]);
    ("Libya", ["africa"; "north africa"]);
    ("Tunisia", ["africa"; "north africa"]);
    ("Egypt", ["africa"; "north africa"; "middle east"]);
    ("Saudi Arabia", ["asia"; "middle east"]);
    ("United Arab Emirates", ["asia"; "middle east"]);
    ("Oman", ["asia"; "middle east"]);
    ("Yemen", ["asia"; "middle east"]);
    ("India", ["asia"; "south asia"]);
    ("Bangladesh", ["asia"; "south asia"]);
    ("Pakistan", ["asia"; "south asia"]);
    ("China", ["asia"; "east asia"]);
    ("Japan", ["asia"; "east asia"]);
    ("South Korea", ["asia"; "east asia"]);
    ("Kenya", ["africa"; "east africa"]);
    ("Nigeria", ["africa"; "west africa"]);
    ("South Africa", ["africa"]);
    ("Brazil", ["south america"]);
    ("Argentina", ["south america"]);
    ("Chile", ["south america"]);
    ("Australia", ["oceania"]);
    ("New Zealand", ["oceania"]) ].

Definition _COUNTRY_MACROREGIONS : gmap string (gset string) :=
  dict_of (map (fun kv => (kv.1, list_to_set kv.2)) _COUNTRY_MACROREGIONS_items).

Definition _US_STATES : list (string * string) :=
  [ ("Alabama", "AL");
    ("Alaska", "AK");
    ("Arizona", "AZ");
    ("Arkansas", "AR");
    ("California", "CA");
    ("Colorado", "CO");
    ("Connecticut", "CT");
    ("Delaware", "DE");
    ("District of Columbia", "DC");
    ("Florida", "FL");
    ("Georgia", "GA");
    ("Hawaii", "HI");
    ("Idaho", "ID");
    ("Illinois", "IL");
    ("Indiana", "IN");
    ("Iowa", "IA");
    ("Kansas", "KS");
    ("Kentucky", "KY");
    ("Louisiana", "LA");
    ("Maine", "ME");
    ("Maryland", "MD");
    ("Massachusetts", "MA");
    ("Michigan", "MI");
    ("Minnesota", "MN");
    ("Mississippi", "MS");
    ("Missouri", "MO");
    ("Montana", "MT");
    ("Nebraska", "NE");
    ("Nevada", "NV");
    ("New Hampshire", "NH");
    ("New Jersey", "NJ");
    ("New Mexico", "NM");
    ("New York", "NY");
    ("North Carolina", "NC");
    ("North Dakota", "ND");
    ("Ohio", "OH");
    ("Oklahoma", "OK");
    ("Oregon", "OR");
    ("Pennsylvania", "PA");
    ("Rhode Island", "RI");
    ("South Carolina", "SC");
    ("South Dakota", "SD");
    ("Tennessee", "TN");
    ("Texas", "TX");
    ("Utah", "UT");
    ("Vermont", "VT");
    ("Virginia", "VA");
    ("Washington", "WA");
    ("West Virginia", "WV");
    ("Wisconsin", "WI");
    ("Wyoming", "WY");
    ("Puerto Rico", "PR") ].

Definition _CANADA_PROVINCES : list (string * string) :=
  [ ("Alberta", "AB");
    ("British Columbia", "BC");
    ("Manitoba", "MB");
    ("New Brunswick", "NB");
    ("Newfoundland and Labrador", "NL");
    ("Northwest Territories", "NT");
    ("Nova Scotia", "NS");
    ("Nunavut", "NU");
    ("Ontario", "ON");
    ("Prince Edward Island", "PE");
    ("Quebec", "QC");
    ("Saskatchewan", "SK");
    ("Yukon", "YT") ].

Definition _MEXICO_STATES : list (string * string) :=
  [ ("Sinaloa", "SIN");
    ("Coahuila", "COA");
    ("Nuevo Leon", "NLE");
    ("Durango", "DUR") ].

Definition _SPAIN_REGIONS : list (string * string) :=
  [ ("Galicia", "");
    ("Asturias", "");
    ("Castile and Leon", "");
    ("Basque Country", "");
    ("Navarre", "");
    ("Aragon", "");
    ("Catalonia", "") ].

Definition _AUSTRALIA_STATES : list (string * string) :=
  [ ("New South Wales", "NSW");
    ("Queensland", "QLD");
    ("Northern Territory", "NT");
    ("Western Australia", "WA");
    ("Victoria", "VIC");
    ("South Australia", "SA");
    ("Tasmania", "TAS") ].

Definition _NEW_ZEALAND_REGIONS : list (string * string) :=
  [ ("North Island", "");
    ("South Island", "");
    ("Southland", "");
    ("Otago", "") ].

(** The inner function [add] of [_build_region_aliases]; the dictionary it
    updates is passed in and returned. *)
Definition add_entry (country : option string)
    (result : gmap string (string * option string)) (entry : string * string)
  : gmap string (string * option string) :=
  let '(name, abbr) := entry in
  let key := PyStr.lower name in
  let result := <[key := (name, country)]> result in
  if PyStr.nonempty abbr then <[PyStr.lower abbr := (name, country)]> result
  else result.

Definition add (entries : list (string * string)) (country : option string)
    (result : gmap string (string * option string))
  : gmap string (string * option string) :=
  foldl (add_entry country) result entries.

(** The region-level aliases assigned one by one after the six tables. *)
Definition macro_region_aliases : list (string * (string * option string)) :=
  [ ("north america", ("North America", None));
    ("south america", ("South America", None));
    ("central america", ("Central America", None));
    ("europe", ("Europe", None));
    ("western europe", ("Western Europe", None));
    ("eastern europe", ("Eastern Europe", None));
    ("africa", ("Africa", None));
    ("north africa", ("North Africa", None));
    ("east africa", ("East Africa", None));
    ("west africa", ("West Africa", None));
    ("middle east", ("Middle East", None));
    ("south asia", ("South Asia", None));
    ("east asia", ("East Asia", None));
    ("oceania", ("Oceania", None));
    ("arctic", ("Arctic", None)) ].

Definition _build_region_aliases : gmap string (string * option string) :=
  let result := ∅ in
  let result := add _US_STATES (Some "United States") result in
  let result := add _CANADA_PROVINCES (Some "Canada") result in
  let result := add _MEXICO_STATES (Some "Mexico") result in
  let result := add _SPAIN_REGIONS (Some "Spain") result in
  let result := add _AUSTRALIA_STATES (Some "Australia") result in
  let result := add _NEW_ZEALAND_REGIONS (Some "New Zealand") result in
  foldl (fun d kv => <[kv.1 := kv.2]> d) result macro_region_aliases.

Definition _REGION_ALIAS_LOOKUP : gmap string (string * option string) :=
  _build_region_aliases.

(** ** Postal code resolution *)

Definition _ZIP_STATE_RANGES : list (Z * Z * string) :=
  [ (5, 9, "Puerto Rico");
    (10, 27, "Massachusetts");
    (28, 29, "Rhode Island");
    (30, 38, "New Hampshire");
    (39, 49, "Maine");
    (50, 59, "Vermont");
    (60, 69, "Connecticut");
    (70, 89, "New Jersey");
    (90, 98, "Armed Forces Europe");
    (100, 149, "New York");
    (150, 196, "Pennsylvania");
    (197, 199, "Delaware");
    (200, 205, "District of Columbia");
    (206, 219, "Maryland");
    (220, 246, "Virginia");
    (247, 268, "West Virginia");
    (270, 289, "North Carolina");
    (290, 299, "South Carolina");
    (300, 319, "Georgia");
    (320, 349, "Florida");
    (350, 369, "Alabama");
    (370, 385, "Tennessee");
    (386, 397, "Mississippi");
    (398, 399, "Georgia");
    (400, 427, "Kentucky");
    (430, 459, "Ohio");
    (460, 479, "Indiana");
    (480, 499, "Michigan");
    (500, 528, "Iowa");
    (530, 549, "Wisconsin");
    (550, 567, "Minnesota");
    (570, 577, "South Dakota");
    (580, 588, "North Dakota");
    (590, 599, "Montana");
    (600, 629, "Illinois");
    (630, 658, "Missouri");
    (660, 679, "Kansas");
    (680, 693, "Nebraska");
    (700, 715, "Louisiana");
    (716, 729, "Arkansas");
    (730, 749, "Oklahoma");
    (750, 799, "Texas");
    (800, 816, "Colorado");
    (820, 831, "Wyoming");
    (832, 838, "Idaho");
    (840, 847, "Utah");
    (850, 865, "Arizona");
    (870, 884, "New Mexico");
    (889, 898, "Nevada");
    (900, 961, "California");
    (962, 966, "Armed Forces Pacific");
    (967, 968, "Hawaii");
    (970, 979, "Oregon");
    (980, 994, "Washington");
    (995, 999, "Alaska") ]%Z.

Definition _CANADA_POSTAL_PREFIX_items : list (string * string) :=
  [ ("A", "Newfoundland and Labrador");
    ("B", "Nova Scotia");
    ("C", "Prince Edward Island");
    ("E", "New Brunswick");
    ("G", "Quebec");
    ("H", "Quebec");
    ("J", "Quebec");
    ("K", "Ontario");
    ("L", "Ontario");
    ("M", "Ontario");
    ("N", "Ontario");
    ("P", "Ontario");
    ("R", "Manitoba");
    ("S", "Saskatchewan");
    ("T", "Alberta");
    ("V", "British Columbia");
    ("X", "Nunavut");
    ("Y", "Yukon") ].

Definition _CANADA_POSTAL_PREFIX : gmap string string :=
  dict_of _CANADA_POSTAL_PREFIX_items.

(** The [for lower, upper, state in ranges] loop of [_resolve_us_zip]: the
    first range that contains [prefix] returns.  The country is
    "United States" on both sides of the source's conditional expression,
    and [state = state] changes nothing. *)
Fixpoint zip_scan (prefix : Z) (ranges : list (Z * Z * string))
  : option (string * string) :=
  match ranges with
  | [] => None
  | (lower, upper, state) :: ranges' =>
      if (lower <=? prefix)%Z && (prefix <=? upper)%Z then
        let country :=
          if negb (bool_decide (state ∈ ["Armed Forces Europe"; "Armed Forces Pacific"]))
          then "United States" else "United States" in
        let state := if PyStr.startswith state "Armed Forces" then state else state in
        Some (state, country)
      else zip_scan prefix ranges'
  end.

Definition _resolve_us_zip (zip_code : string) : option (string * string) :=
  let digits := PyStr.filter_chars PyStr.isdigit zip_code in
  if (String.length digits <? 3)%nat then None
  else match PyStr.int (PyStr.take 3 digits) with
       | None => None
       | Some prefix => zip_scan prefix _ZIP_STATE_RANGES
       end.

Definition _resolve_canadian_postal (code : string) : option (string * string) :=
  let cleaned :=
    PyStr.upper (PyStr.filter_chars (fun c => negb (Ascii.eqb c " ")) code) in
  match cleaned with
  | EmptyString => None
  | String first _ =>
      match _CANADA_POSTAL_PREFIX !! String first EmptyString with
      | Some province =>
          if PyStr.nonempty province then Some (province, "Canada") else None
      | None => None
      end
  end.

Definition resolve_postal_code (code : string) : option (string * string) :=
  let code := PyStr.strip code in
  if negb (PyStr.nonempty code) then None
  else if Re.fullmatch Re.zip_re code then _resolve_us_zip code
  else if Re.fullmatch Re.canadian_re code then _resolve_canadian_postal code
  else None.

(** ** Location parsing *)

Definition _normalise_token (value : string) : string :=
  PyStr.collapse_ws (PyStr.lower (PyStr.strip value)).

Record LocationQuery : Type := mkLocationQuery {
  raw : string;
  city : option string;
  region : option string;
  country : option string;
  postal_code : option string
}.

(** [LocationQuery.tokens]; [result] is the set under construction. *)
Definition tokens (self : LocationQuery) : gset string :=
  let result : gset string := ∅ in
  let result :=
    match city self with
    | Some c =>
        if PyStr.nonempty c then
          (result ∪ list_to_set (map PyStr.lower (PyStr.split_ws c))) ∪ {[PyStr.lower c]}
        else result
    | None => result
    end in
  let result :=
    match region self with
    | Some r =>
        if PyStr.nonempty r then
          (result ∪ {[PyStr.lower r]}) ∪ list_to_set (map PyStr.lower (PyStr.split_ws r))
        else result
    | None => result
    end in
  match country self with
  | Some c =>
      if PyStr.nonempty c then
        let result := result ∪ {[PyStr.lower c]} in
        let result :=
          foldl (fun res item =>
                   let '(alias, canonical) := item in
                   if bool_decide (canonical = c) then res ∪ {[alias]} else res)
                result _COUNTRY_CANONICAL_items in
        result ∪ default ∅ (_COUNTRY_MACROREGIONS !! c)
      else result
  | None => result
  end.

Definition normalize_country (name : option string) : option string :=
  match name with
  | Some n =>
      if PyStr.nonempty n then
        let token := _normalise_token n in
        Some (default (PyStr.strip n) (_COUNTRY_CANONICAL !! token))
      else None
  | None => None
  end.

Definition normalize_region (name : option string) : option string :=
  match name with
  | Some n =>
      if PyStr.nonempty n then
        let token := _normalise_token n in
        match _REGION_ALIAS_LOOKUP !! token with
        | Some region_candidate => Some region_candidate.1
        | None => Some (PyStr.strip n)
        end
      else None
  | None => None
  end.

(** The exception [parse_location_input] raises. *)
Inductive exn : Type :=
| ValueError (message : string).

(** The three variables the parser keeps: [city], [region], [country]. *)
Record fields : Type := mkFields {
  f_city : option string;
  f_region : option string;
  f_country : option string
}.

(** [components = [c.strip() for c in raw.split(",") if c.strip()]] *)
Definition split_components (raw : string) : list string :=
  map PyStr.strip
    (List.filter (fun component => PyStr.nonempty (PyStr.strip component))
       (PyStr.split_on "," raw)).

(** One iteration of [for component in reversed(components)]; each
    [continue] of the source is a branch that returns. *)
Definition scan_component (st : fields) (component : string) : fields :=
  let token := _normalise_token component in
  let country_hit :=
    if negb (PyStr.truthy (f_country st)) then
      match _COUNTRY_CANONICAL !! token with
      | Some country_candidate =>
          if PyStr.nonempty country_candidate then Some country_candidate else None
      | None => None
      end
    else None in
  match country_hit with
  | Some country_candidate =>
      mkFields (f_city st) (f_region st) (Some country_candidate)
  | None =>
      let region_hit :=
        if negb (PyStr.truthy (f_region st)) then _REGION_ALIAS_LOOKUP !! token
        else None in
      match region_hit with
      | Some (region, inferred_country) =>
          mkFields (f_city st) (Some region)
            (if PyStr.truthy inferred_country && negb (PyStr.truthy (f_country st))
             then inferred_country else f_country st)
      | None =>
          match f_city st with
          | Some c =>
              if PyStr.nonempty c then
                mkFields (Some (PyStr.strip component ++ " " ++ c)) (f_region st) (f_country st)
              else mkFields (Some (PyStr.strip component)) (f_region st) (f_country st)
          | None => mkFields (Some (PyStr.strip component)) (f_region st) (f_country st)
          end
      end
  end.

Definition scan_components (components : list string) : fields :=
  foldl scan_component (mkFields None None None) (rev components).

(** [if not city and components: city = components[0].strip()] *)
Definition fallback_city (components : list string) (st : fields) : fields :=
  if negb (PyStr.truthy (f_city st)) then
    match components with
    | first :: _ => mkFields (Some (PyStr.strip first)) (f_region st) (f_country st)
    | [] => st
    end
  else st.

(** [x or None] for a string [x]. *)
Definition or_None (s : string) : option string :=
  if PyStr.nonempty s then Some s else None.

(** Peeling a trailing two-letter abbreviation off the city. *)
Definition peel_trailing (st : fields) : fields :=
  match f_city st with
  | Some c =>
      if PyStr.nonempty c then
        match Re.search_trailing c with
        | Some (start, group1) =>
            if negb (PyStr.truthy (f_region st)) then
              let candidate := PyStr.lower group1 in
              match _REGION_ALIAS_LOOKUP !! candidate with
              | Some (region, inferred_country) =>
                  mkFields
                    (or_None (PyStr.strip (PyStr.strip_chars ", " (PyStr.take start c))))
                    (Some region)
                    (if PyStr.truthy inferred_country && negb (PyStr.truthy (f_country st))
                     then inferred_country else f_country st)
              | None => st
              end
            else st
        | None => st
        end
      else st
  | None => st
  end.

(** [if region and not country]: infer the country from the region. *)
Definition infer_country (st : fields) : fields :=
  match f_region st with
  | Some r =>
      if PyStr.nonempty r && negb (PyStr.truthy (f_country st)) then
        let region_token := PyStr.lower r in
        match _REGION_ALIAS_LOOKUP !! region_token with
        | Some (_, inferred_country) =>
            if PyStr.truthy inferred_country
            then mkFields (f_city st) (f_region st) inferred_country
            else st
        | None => st
        end
      else st
  | None => st
  end.

(** The three assignments to [city] that end the function. *)
Definition strip_city (o : option string) : option string :=
  match o with
  | Some c => if PyStr.nonempty c then or_None (PyStr.strip c) else o
  | None => o
  end.

(** [if city and other and city.lower() == other.lower(): city = None] *)
Definition drop_if_same (o other : option string) : option string :=
  match o, other with
  | Some c, Some x =>
      if PyStr.nonempty c && PyStr.nonempty x
         && bool_decide (PyStr.lower c = PyStr.lower x)
      then None else o
  | _, _ => o
  end.

Definition collapse_city (st : fields) : option string :=
  let city := strip_city (f_city st) in
  let city := drop_if_same city (f_region st) in
  drop_if_same city (f_country st).

Definition is_postal_shape (raw : string) : bool :=
  Re.fullmatch Re.zip_re raw || Re.fullmatch Re.canadian_re raw.

Definition parse_location_input (user_input : string) : exn + LocationQuery :=
  let raw := PyStr.strip user_input in
  if negb (PyStr.nonempty raw) then inl (ValueError "Location input cannot be empty.")
  else if is_postal_shape raw then
    (* Postal code shortcut *)
    let lookup := resolve_postal_code raw in
    let '(region, country) :=
      match lookup with
      | Some (region, country) => (Some region, Some country)
      | None => (None, None)
      end in
    inr (mkLocationQuery user_input None region country (Some raw))
  else
    let components := split_components raw in
    let st := scan_components components in
    let st := fallback_city components st in
    let st := peel_trailing st in
    let st := infer_country st in
    let city := collapse_city st in
    let country := normalize_country (f_country st) in
    let region := normalize_region (f_region st) in
    inr (mkLocationQuery user_input city region country None).

(** ** Events and visibility matching *)

(** [datetime.date]; dates compare as the triples (year, month, day). *)
Record date : Type := mkDate { year : Z; month : Z; day : Z }.

Definition date_ltb (a b : date) : bool :=
  ((year a <? year b)
   || ((year a =? year b) && ((month a <? month b)
                              || ((month a =? month b) && (day a <? day b)))))%Z.

Record VisibilityWindow : Type := mkVisibilityWindow {
  countries : list string;
  regions : list string;
  notes : string
}.

Record EclipseEvent : Type := mkEclipseEvent {
  occurs_on : date;
  kind : string;
  subtype : string;
  title : string;
  visibility : list VisibilityWindow;
  peak_description : string
}.

(** [{x.lower() for x in names}] *)
Definition lowered (names : list string) : gset string :=
  list_to_set (map PyStr.lower names).

(** [bool(s)] for a set, and [bool(a & b)]. *)
Definition set_nonempty (s : gset string) : bool := bool_decide (s ≠ ∅).
Definition intersects (a b : gset string) : bool := set_nonempty (a ∩ b).

(** [o and o.lower() in s] for an [Optional[str]] *)
Definition lower_in (o : option string) (s : gset string) : bool :=
  match o with
  | Some x => PyStr.nonempty x && bool_decide (PyStr.lower x ∈ s)
  | None => false
  end.

Definition is_None {A : Type} (o : option A) : bool :=
  match o with None => true | Some _ => false end.

Definition _window_matches_location
    (window : VisibilityWindow) (location : LocationQuery) : bool :=
  let location_tokens := tokens location in
  let country_tokens := lowered (countries window) in
  let region_tokens := lowered (regions window) in
  let country_gate_fails :=
    set_nonempty country_tokens
    && (if PyStr.truthy (country location) then
          negb (lower_in (country location) country_tokens)
          && negb (intersects location_tokens country_tokens)
        else negb (intersects location_tokens country_tokens)) in
  if country_gate_fails then false
  else if negb (set_nonempty region_tokens) then true
  else if lower_in (region location) region_tokens then true
  else if intersects location_tokens region_tokens then true
  else if is_None (region location) && set_nonempty country_tokens
          && lower_in (country location) country_tokens then true
  else false.

Fixpoint is_visible_from_windows
    (windows : list VisibilityWindow) (location : LocationQuery) : bool :=
  match windows with
  | [] => false
  | window :: windows' =>
      if _window_matches_location window location then true
      else is_visible_from_windows windows' location
  end.

Definition is_visible_from (event : EclipseEvent) (location : LocationQuery) : bool :=
  is_visible_from_windows (visibility event) location.

Fixpoint matching_window_in
    (windows : list VisibilityWindow) (location : LocationQuery)
  : option VisibilityWindow :=
  match windows with
  | [] => None
  | window :: windows' =>
      if _window_matches_location window location then Some window
      else matching_window_in windows' location
  end.

Definition matching_window (event : EclipseEvent) (location : LocationQuery)
  : option VisibilityWindow :=
  matching_window_in (visibility event) location.

(** The [for event in events] loop of [next_visible_event]. *)
Fixpoint scan_events
    (events : list EclipseEvent) (location : LocationQuery) (reference_date : date)
  : option EclipseEvent :=
  match events with
  | [] => None
  | event :: events' =>
      if date_ltb (occurs_on event) reference_date then
        scan_events events' location reference_date            (* continue *)
      else if is_visible_from event location then Some event
      else scan_events events' location reference_date
  end.

(** [today] is the value of [date.today()], read only when [start_date] is
    [None] (a [date] is always true). *)
Definition next_visible_event
    (events : list EclipseEvent) (location : LocationQuery)
    (start_date : option date) (today : date) : option EclipseEvent :=
  let reference_date := match start_date with Some d => d | None => today end in
  scan_events events location reference_date.

(** ** The remaining functions of the modules *)

(** [LocationQuery.formatted] *)
Definition formatted (self : LocationQuery) : string :=
  let components := [city self; region self; country self] in
  PyStr.join ", "
    (flat_map (fun component =>
                 match component with
                 | Some text => if PyStr.nonempty text then [text] else []
                 | None => []
                 end) components).

(** [any([location.city, location.region, location.country,
    location.postal_code])], the test both front ends ([app.py],
    [streamlit_app.py]) apply to a parsed location before they search. *)
Definition interpretable (location : LocationQuery) : bool :=
  existsb PyStr.truthy
    [city location; region location; country location; postal_code location].

(** [find_next_eclipses]; the two catalogues [eclipse_data.solar_events()]
    and [eclipse_data.lunar_events()] are read from files and are
    arguments here. *)
Definition find_next_eclipses
    (solar_events lunar_events : list EclipseEvent) (location : LocationQuery)
    (reference_date : option date) (today : date)
  : option EclipseEvent * option EclipseEvent :=
  let solar := next_visible_event solar_events location reference_date today in
  let lunar := next_visible_event lunar_events location reference_date today in
  (solar, lunar).

(** [eclipse_data._normalise_duration] *)
Definition _normalise_duration (value : option string) : option string :=
  match value with
  | None => None
  | Some v =>
      if negb (PyStr.nonempty v) then None
      else
        let stripped := PyStr.strip v in
        if negb (PyStr.nonempty stripped) then None
        else
          let stripped :=
            if PyStr.startswith stripped "0" && (1 <? String.length stripped)%nat
            then PyStr.lstrip_with (PyStr.char_in "0") stripped
            else stripped in
          Some (if PyStr.nonempty stripped then stripped else "0")
  end.

(** ** Predicates used in the statements *)

(** The text fields of a location, and the names of a window, are ASCII. *)
Definition ascii_field (field : option string) : bool :=
  match field with Some text => PyStr.isascii text | None => true end.



(** A value of [_COUNTRY_CANONICAL]. *)
Definition canonical_country (c : string) : Prop :=
  exists alias, _COUNTRY_CANONICAL !! alias = Some c.

(** The name part of a value of [_REGION_ALIAS_LOOKUP]. *)
Definition canonical_region (r : string) : Prop :=
  exists alias owner, _REGION_ALIAS_LOOKUP !! alias = Some (r, owner).

(** A canonical country name is not empty, carries no outer whitespace and
    is the value stored under its own normalised form. *)
Definition country_value_ok (v : string) : bool :=
  PyStr.nonempty v
  && bool_decide (_COUNTRY_CANONICAL !! _normalise_token v = Some v)
  && bool_decide (PyStr.strip v = v).

(** The same for a value of the region table, whose owning country, when it
    has one, is a canonical country. *)
Definition region_value_ok (v : string * option string) : bool :=
  PyStr.nonempty v.1
  && bool_decide (_REGION_ALIAS_LOOKUP !! _normalise_token v.1 = Some v)
  && bool_decide (_REGION_ALIAS_LOOKUP !! PyStr.lower v.1 = Some v)
  && match v.2 with Some c => country_value_ok c | None => true end.

(** What the parser's three variables satisfy between its steps. *)
Record fields_ok (st : fields) : Prop := mkFieldsOk {
  ok_city : forall c, f_city st = Some c -> PyStr.strip c <> "";
  ok_region : forall r, f_region st = Some r -> canonical_region r;
  ok_country : forall c, f_country st = Some c -> canonical_country c
}.

(** One of the three variables is set. *)
Definition some_field (st : fields) : bool :=
  PyStr.truthy (f_city st) || PyStr.truthy (f_region st) || PyStr.truthy (f_country st).

(** A segment that neither table recognises. *)
Definition unrecognised (component : string) : Prop :=
  PyStr.strip component <> ""
  /\ _COUNTRY_CANONICAL !! _normalise_token component = None
  /\ _REGION_ALIAS_LOOKUP !! _normalise_token component = None.

(** The rows are well formed and in ascending order without overlap. *)
Fixpoint ranges_ascending (floor : Z) (ranges : list (Z * Z * string)) : bool :=
  match ranges with
  | [] => true
  | (lo, hi, _) :: ranges' =>
      (floor <? lo)%Z && (lo <=? hi)%Z && ranges_ascending hi ranges'
  end.

(** The parser's three variables after its comma-split path, before the
    final clean-up of the city and the two normalisations. *)
Definition parsed_fields (raw : string) : fields :=
  let components := split_components raw in
  infer_country (peel_trailing (fallback_city components (scan_components components))).

(** A comma or a whitespace character. *)
Definition comma_or_space (c : ascii) : bool :=
  Ascii.eqb c "," || PyStr.isspace c.

(** [lower <= prefix <= upper] for a row of [_ZIP_STATE_RANGES]. *)
Definition in_range (prefix : Z) (range : Z * Z * string) : Prop :=
  (range.1.1 <= prefix <= range.1.2)%Z.

(** An event qualifies for [next_visible_event]: its date is not before the
    reference date and one of its windows matches the location. *)
Definition qualifies (location : LocationQuery) (reference_date : date)
    (event : EclipseEvent) : Prop :=
  date_ltb (occurs_on event) reference_date = false
  /\ Exists (fun window => _window_matches_location window location = true)
       (visibility event).

(** An entry of a region table registers the key [k]: its lowercased name,
    or its lowercased abbreviation when it has one. *)
Definition registers (k : string) (entry : string * string) : Prop :=
  PyStr.lower entry.1 = k \/ (entry.2 <> "" /\ PyStr.lower entry.2 = k).

(** The six region tables with their countries, in the order in which
    [_build_region_aliases] adds them. *)
Definition region_tables : list (list (string * string) * option string) :=
  [ (_US_STATES, Some "United States");
    (_CANADA_PROVINCES, Some "Canada");
    (_MEXICO_STATES, Some "Mexico");
    (_SPAIN_REGIONS, Some "Spain");
    (_AUSTRALIA_STATES, Some "Australia");
    (_NEW_ZEALAND_REGIONS, Some "New Zealand") ].

(** * Properties *)

(** ** Dictionary displays *)

Lemma foldl_insert_lookup {V} (items : list (string * V)) (m : gmap string V) k v :
  NoDup items.*1 ->
  foldl (fun d kv => <[kv.1 := kv.2]> d) m items !! k = Some v <->
  ((k, v) ∈ items \/ ((k ∉ items.*1) /\ m !! k = Some v)).
Proof.
  revert m. induction items as [|[k0 v0] items IH]; intros m Hnd.
  - split; [intros H; right; split; [apply not_elem_of_nil | exact H]|].
    intros [H | [_ H]]; [now apply elem_of_nil in H | exact H].
  - rewrite fmap_cons in Hnd |- *. apply NoDup_cons in Hnd as [Hk0 Hnd].
    cbn [foldl fst snd] in *. rewrite (IH _ Hnd).
    rewrite lookup_insert, !elem_of_cons.
    assert (Hin : forall w, (k0, w) ∈ items -> k0 ∈ items.*1).
    { intros w Hw. apply (list_elem_of_fmap_2 fst) in Hw. exact Hw. }
    case_decide as Hk; [subst k0|]; intuition (try congruence); eauto.
Qed.

Lemma dict_of_lookup {V} (items : list (string * V)) k v :
  NoDup items.*1 -> dict_of items !! k = Some v <-> (k, v) ∈ items.
Proof.
  intros Hnd. unfold dict_of. rewrite foldl_insert_lookup by exact Hnd.
  rewrite lookup_empty. split; [intros [H | [_ H]]; [exact H | discriminate] | now left].
Qed.

Lemma country_keys_distinct : NoDup _COUNTRY_CANONICAL_items.*1.
Proof. apply (bool_decide_unpack _). vm_compute. exact I. Qed.

(** The pairs listed in the source are exactly the items of the dictionary,
    which is what [tokens] iterates over. *)
Lemma country_items_exact k v :
  _COUNTRY_CANONICAL !! k = Some v <-> (k, v) ∈ _COUNTRY_CANONICAL_items.
Proof. apply dict_of_lookup, country_keys_distinct. Qed.

(** ** Stripping and splitting *)

Section Strip.
Import PyStr.
Variable p : ascii -> bool.

Lemma lstrip_with_all s : all_chars p (lstrip_with p s) = all_chars p s.
Proof.
  induction s as [|c s IH]; simpl; [reflexivity|].
  destruct (p c) eqn:Hc; simpl; [exact IH | now rewrite Hc].
Qed.

Lemma rstrip_with_nil s : rstrip_with p s = "" <-> all_chars p s = true.
Proof.
  induction s as [|c s IH]; simpl; [tauto|].
  destruct (rstrip_with p s) as [|d r] eqn:Hr.
  - destruct (p c); simpl; [tauto|].
    split; [discriminate | discriminate].
  - split; [discriminate|].
    intros [_ Hs]%andb_true_iff. apply IH in Hs. discriminate.
Qed.

Lemma strip_with_nil s : strip_with p s = "" <-> all_chars p s = true.
Proof. unfold strip_with. now rewrite rstrip_with_nil, lstrip_with_all. Qed.

Lemma lstrip_with_head s c r : lstrip_with p s = String c r -> p c = false.
Proof.
  induction s as [|d s IH]; simpl; [discriminate|].
  destruct (p d) eqn:Hd; [exact IH|].
  intros [= <- _]. exact Hd.
Qed.

Lemma rstrip_with_head s c r :
  rstrip_with p s = String c r -> exists r', s = String c r'.
Proof.
  destruct s as [|d s]; simpl; [discriminate|].
  destruct (rstrip_with p s); [destruct (p d)|]; intros [= <- _]; eauto.
Qed.

Lemma strip_with_head s c r : strip_with p s = String c r -> p c = false.
Proof.
  unfold strip_with. intros [r' Hr']%rstrip_with_head.
  eapply lstrip_with_head, Hr'.
Qed.

Variable q : ascii -> bool.

Lemma lstrip_with_keeps s : all_chars q s = true -> all_chars q (lstrip_with p s) = true.
Proof.
  induction s as [|c s IH]; simpl; [reflexivity|].
  intros [Hc Hs]%andb_true_iff.
  destruct (p c); [auto | simpl; now rewrite Hc, Hs].
Qed.

Lemma rstrip_with_keeps s : all_chars q s = true -> all_chars q (rstrip_with p s) = true.
Proof.
  induction s as [|c s IH]; simpl; [reflexivity|].
  intros [Hc Hs]%andb_true_iff. specialize (IH Hs).
  destruct (rstrip_with p s).
  - destruct (p c); simpl; [reflexivity | now rewrite Hc].
  - simpl in IH |- *. now rewrite Hc, IH.
Qed.

Lemma strip_with_keeps s : all_chars q s = true -> all_chars q (strip_with p s) = true.
Proof. intros H. now apply rstrip_with_keeps, lstrip_with_keeps. Qed.

End Strip.

Lemma nonempty_false s : PyStr.nonempty s = false <-> s = "".
Proof. destruct s; simpl; split; congruence. Qed.

Lemma strip_empty_iff s : PyStr.strip s = "" <-> PyStr.all_chars PyStr.isspace s = true.
Proof. apply strip_with_nil. Qed.

Lemma split_on_comma_blank s :
  PyStr.all_chars comma_or_space s = true ->
  Forall (fun field => PyStr.all_chars PyStr.isspace field = true) (PyStr.split_on "," s).
Proof.
  induction s as [|c s IH]; simpl.
  - intros _. repeat constructor.
  - intros [Hc Hs]%andb_true_iff. specialize (IH Hs).
    destruct (Ascii.eqb c ",") eqn:Hcomma.
    + constructor; [reflexivity | exact IH].
    + unfold comma_or_space in Hc. rewrite Hcomma in Hc. simpl in Hc.
      destruct (PyStr.split_on "," s) as [|field fields].
      * repeat constructor. simpl. now rewrite Hc.
      * inversion IH as [|? ? Hf Hfs]; subst.
        constructor; [simpl; now rewrite Hc, Hf | exact Hfs].
Qed.

Lemma split_components_blank s :
  PyStr.all_chars comma_or_space s = true -> split_components s = [].
Proof.
  intros H. apply split_on_comma_blank in H. unfold split_components.
  induction H as [|field fields Hf _ IH]; simpl; [reflexivity|].
  apply strip_empty_iff in Hf. rewrite Hf. simpl. exact IH.
Qed.

(** ** The two postal shapes *)

Lemma zip_re_head c r :
  Re.fullmatch Re.zip_re (String c r) = true -> PyStr.isdigit c = true.
Proof.
  destruct (PyStr.isdigit c) eqn:Hc; [reflexivity|].
  unfold Re.fullmatch, Re.zip_re. cbn. now rewrite Hc.
Qed.

Lemma canadian_re_head c r :
  Re.fullmatch Re.canadian_re (String c r) = true -> PyStr.isalpha c = true.
Proof.
  destruct (PyStr.isalpha c) eqn:Hc; [reflexivity|].
  unfold Re.fullmatch, Re.canadian_re. cbn. now rewrite Hc.
Qed.

Lemma postal_shape_nonempty raw :
  is_postal_shape raw = true -> PyStr.nonempty raw = true.
Proof. destruct raw; [discriminate | reflexivity]. Qed.

Lemma postal_shape_not_comma r : is_postal_shape (String "," r) = false.
Proof.
  unfold is_postal_shape. apply orb_false_iff. split.
  - destruct (Re.fullmatch Re.zip_re (String "," r)) eqn:H; [|reflexivity].
    apply zip_re_head in H. discriminate.
  - destruct (Re.fullmatch Re.canadian_re (String "," r)) eqn:H; [|reflexivity].
    apply canadian_re_head in H. discriminate.
Qed.

(** ** Empty input *)

Lemma parse_blank s :
  PyStr.strip s = "" ->
  parse_location_input s = inl (ValueError "Location input cannot be empty.").
Proof. intros H. unfold parse_location_input. now rewrite H. Qed.


(** C1, as amended: an input made of whitespace only raises the empty-input
    error; an input made of commas and whitespace with at least one comma
    does not raise, it returns a location with no field set besides [raw]. *)
Theorem parse_blank_or_commas (s : string) :
  (PyStr.all_chars PyStr.isspace s = true ->
   parse_location_input s = inl (ValueError "Location input cannot be empty."))
  /\ (PyStr.all_chars comma_or_space s = true ->
      PyStr.all_chars PyStr.isspace s = false ->
      parse_location_input s = inr (mkLocationQuery s None None None None)).
Proof.
  split.
  - intros H. apply parse_blank, strip_empty_iff, H.
  - intros Hcs Hsp.
    assert (Hraw : PyStr.all_chars comma_or_space (PyStr.strip s) = true)
      by now apply strip_with_keeps.
    unfold parse_location_input.
    destruct (PyStr.strip s) as [|c r] eqn:Hs.
    + apply strip_empty_iff in Hs. congruence.
    + pose proof (strip_with_head _ _ _ _ Hs) as Hc.
      pose proof Hraw as Hcomps. apply split_components_blank in Hcomps.
      simpl in Hraw. apply andb_true_iff in Hraw as [Hcc _].
      unfold comma_or_space in Hcc. rewrite Hc, orb_false_r in Hcc.
      apply Ascii.eqb_eq in Hcc. subst c.
      cbn [PyStr.nonempty negb]. rewrite postal_shape_not_comma, Hcomps.
      reflexivity.
Qed.

Lemma parse_blank_or_commas_witness :
  parse_location_input "   " = inl (ValueError "Location input cannot be empty.")
  /\ parse_location_input " , ,, " = inr (mkLocationQuery " , ,, " None None None None).
Proof.
  split.
  - apply (proj1 (parse_blank_or_commas "   ")). reflexivity.
  - apply (proj2 (parse_blank_or_commas " , ,, ")); reflexivity.
Defined.

(** C1 as stated fails: the input [", ,"] consists of commas and whitespace
    only, and the parser returns a location for it instead of raising. *)
Lemma parse_commas_only_returns :
  PyStr.all_chars comma_or_space ", ," = true
  /\ parse_location_input ", ," = inr (mkLocationQuery ", ," None None None None)
  /\ forall e, parse_location_input ", ," <> inl e.
Proof. split; [reflexivity | split; [reflexivity | discriminate]]. Qed.



(** ** The postal shortcut *)

Example postal_shapes :
  Re.fullmatch Re.zip_re "78701" = true
  /\ Re.fullmatch Re.zip_re "78701-1234" = true
  /\ Re.fullmatch Re.zip_re "7870" = false
  /\ Re.fullmatch Re.zip_re "78701-12" = false
  /\ Re.fullmatch Re.zip_re "787011" = false
  /\ Re.fullmatch Re.canadian_re "K1A" = true
  /\ Re.fullmatch Re.canadian_re "k1a 0b1" = true
  /\ Re.fullmatch Re.canadian_re "K1A0B1" = true
  /\ Re.fullmatch Re.canadian_re "K1A  0B1" = false
  /\ Re.fullmatch Re.canadian_re "K1A 0B" = false.
Proof. repeat split; reflexivity. Qed.

Lemma parse_postal s :
  is_postal_shape (PyStr.strip s) = true ->
  parse_location_input s
  = inr (mkLocationQuery s None
           (fst <$> resolve_postal_code (PyStr.strip s))
           (snd <$> resolve_postal_code (PyStr.strip s))
           (Some (PyStr.strip s))).
Proof.
  intros H. unfold parse_location_input.
  rewrite (postal_shape_nonempty _ H), H. simpl.
  now destruct (resolve_postal_code (PyStr.strip s)) as [[? ?]|].
Qed.

(** C7: an input whose trim has one of the two postal shapes takes the
    postal shortcut: the location carries the trimmed input as postal code,
    no city, and the region and country of the postal resolver, or neither
    when resolution fails. *)
Theorem postal_shortcut (s : string) :
  Re.fullmatch Re.zip_re (PyStr.strip s) = true
  \/ Re.fullmatch Re.canadian_re (PyStr.strip s) = true ->
  parse_location_input s
  = inr (mkLocationQuery s None
           (fst <$> resolve_postal_code (PyStr.strip s))
           (snd <$> resolve_postal_code (PyStr.strip s))
           (Some (PyStr.strip s))).
Proof.
  intros H. apply parse_postal. unfold is_postal_shape.
  apply orb_true_iff. exact H.
Qed.

Lemma postal_shortcut_witness :
  parse_location_input "  K1A 0B1 "
  = inr (mkLocationQuery "  K1A 0B1 " None (Some "Ontario") (Some "Canada")
           (Some "K1A 0B1")).
Proof. apply (postal_shortcut "  K1A 0B1 "). right. reflexivity. Defined.

(** ** ZIP prefixes *)

Lemma zip_scan_Some ranges prefix state country :
  zip_scan prefix ranges = Some (state, country) <->
  country = "United States"
  /\ exists pre lo hi post,
       ranges = (pre ++ (lo, hi, state) :: post)%list
       /\ (lo <= prefix <= hi)%Z
       /\ Forall (fun range => ~ in_range prefix range) pre.
Proof.
  induction ranges as [|[[lo hi] st] ranges IH]; simpl.
  - split; [discriminate|]. intros (_ & [|??] & ? & ? & ? & ? & _); discriminate.
  - replace (if PyStr.startswith st "Armed Forces" then st else st) with st
      by now destruct (PyStr.startswith st "Armed Forces").
    replace (if negb (bool_decide (st ∈ ["Armed Forces Europe"; "Armed Forces Pacific"]))
             then "United States" else "United States") with "United States"
      by now destruct (bool_decide (st ∈ ["Armed Forces Europe"; "Armed Forces Pacific"])).
    destruct ((lo <=? prefix)%Z && (prefix <=? hi)%Z) eqn:Hin.
    + apply andb_true_iff in Hin as [Hlo Hhi].
      apply Z.leb_le in Hlo. apply Z.leb_le in Hhi.
      split.
      * intros [= <- <-]. split; [reflexivity|].
        exists [], lo, hi, ranges. repeat split; auto.
      * intros (-> & [|r pre] & lo' & hi' & post & Heq & Hr & Hpre).
        -- now injection Heq as <- <- <- <-.
        -- injection Heq as <- _. inversion Hpre as [|? ? Hn _]; subst.
           exfalso. apply Hn. unfold in_range. simpl. lia.
    + rewrite IH. split.
      * intros (-> & pre & lo' & hi' & post & -> & Hr & Hpre).
        split; [reflexivity|].
        exists ((lo, hi, st) :: pre), lo', hi', post. repeat split; try tauto.
        constructor; [|exact Hpre].
        unfold in_range. simpl. intros [H1 H2].
        apply Z.leb_le in H1. apply Z.leb_le in H2. rewrite H1, H2 in Hin. discriminate.
      * intros (-> & [|r pre] & lo' & hi' & post & Heq & Hr & Hpre).
        -- injection Heq as <- <- <- <-.
           destruct Hr as [H1 H2]. apply Z.leb_le in H1. apply Z.leb_le in H2.
           rewrite H1, H2 in Hin. discriminate.
        -- injection Heq as <- ->. inversion Hpre; subst.
           split; [reflexivity|]. exists pre, lo', hi', post. auto.
Qed.

Lemma zip_scan_None ranges prefix :
  zip_scan prefix ranges = None <-> Forall (fun range => ~ in_range prefix range) ranges.
Proof.
  induction ranges as [|[[lo hi] st] ranges IH]; simpl.
  - split; [constructor | reflexivity].
  - destruct ((lo <=? prefix)%Z && (prefix <=? hi)%Z) eqn:Hin.
    + split; [discriminate|]. intros H. inversion H as [|? ? Hn _]; subst.
      exfalso. apply Hn. apply andb_true_iff in Hin as [H1 H2].
      apply Z.leb_le in H1. apply Z.leb_le in H2. unfold in_range. simpl. lia.
    + rewrite IH. split.
      * intros H. constructor; [|exact H].
        unfold in_range. simpl. intros [H1 H2].
        apply Z.leb_le in H1. apply Z.leb_le in H2. rewrite H1, H2 in Hin. discriminate.
      * intros H. now inversion H.
Qed.

Lemma rstrip_with_idem p s :
  PyStr.rstrip_with p (PyStr.rstrip_with p s) = PyStr.rstrip_with p s.
Proof.
  induction s as [|c s IH]; simpl; [reflexivity|].
  destruct (PyStr.rstrip_with p s) as [|d r] eqn:Hr.
  - destruct (p c) eqn:Hc; simpl; [reflexivity | now rewrite Hc].
  - change (PyStr.rstrip_with p (String c (String d r)))
      with (match PyStr.rstrip_with p (String d r) with
            | EmptyString => if p c then EmptyString else String c EmptyString
            | String a r' => String c (String a r')
            end).
    now rewrite IH.
Qed.

Lemma lstrip_with_fixed p s :
  (forall c r, s = String c r -> p c = false) -> PyStr.lstrip_with p s = s.
Proof.
  destruct s as [|c r]; simpl; [reflexivity|].
  intros H. now rewrite (H c r eq_refl).
Qed.

Lemma strip_idem s : PyStr.strip (PyStr.strip s) = PyStr.strip s.
Proof.
  unfold PyStr.strip. unfold PyStr.strip_with at 1.
  rewrite lstrip_with_fixed.
  - apply rstrip_with_idem.
  - intros c r H. eapply strip_with_head, H.
Qed.

Lemma resolve_zip_shape raw :
  Re.fullmatch Re.zip_re (PyStr.strip raw) = true ->
  resolve_postal_code (PyStr.strip raw) = _resolve_us_zip (PyStr.strip raw).
Proof.
  intros H. unfold resolve_postal_code. rewrite strip_idem, H.
  destruct (PyStr.strip raw); [discriminate | reflexivity].
Qed.

(** C8: ["78701"] parses to postal code 78701, Texas, United States.  The
    resolver reads the first three digits as a number (787), scans
    [_ZIP_STATE_RANGES] in order and answers with the first row whose
    inclusive range holds the prefix (row 750..799, Texas); when no row
    holds the prefix the resolver fails and the parser leaves region and
    country unset. *)
Theorem zip_prefix_resolution :
  parse_location_input "78701"
  = inr (mkLocationQuery "78701" None (Some "Texas") (Some "United States") (Some "78701"))
  /\ PyStr.int (PyStr.take 3 (PyStr.filter_chars PyStr.isdigit "78701")) = Some 787%Z
  /\ _ZIP_STATE_RANGES !! 41%nat = Some (750, 799, "Texas")%Z
  /\ (forall code prefix,
        (3 <= String.length (PyStr.filter_chars PyStr.isdigit code))%nat ->
        PyStr.int (PyStr.take 3 (PyStr.filter_chars PyStr.isdigit code)) = Some prefix ->
        _resolve_us_zip code = zip_scan prefix _ZIP_STATE_RANGES)
  /\ (forall prefix state country,
        zip_scan prefix _ZIP_STATE_RANGES = Some (state, country) <->
        country = "United States"
        /\ exists pre lo hi post,
             _ZIP_STATE_RANGES = (pre ++ (lo, hi, state) :: post)%list
             /\ (lo <= prefix <= hi)%Z
             /\ Forall (fun range => ~ in_range prefix range) pre)
  /\ (forall prefix,
        zip_scan prefix _ZIP_STATE_RANGES = None <->
        Forall (fun range => ~ in_range prefix range) _ZIP_STATE_RANGES)
  /\ (forall s,
        Re.fullmatch Re.zip_re (PyStr.strip s) = true ->
        _resolve_us_zip (PyStr.strip s) = None ->
        parse_location_input s
        = inr (mkLocationQuery s None None None (Some (PyStr.strip s)))).
Proof.
  split; [reflexivity|]. split; [reflexivity|]. split; [reflexivity|].
  split; [|split; [|split]].
  - intros code prefix Hlen Hint. unfold _resolve_us_zip.
    rewrite Hint. apply Nat.ltb_ge in Hlen. now rewrite Hlen.
  - intros. apply zip_scan_Some.
  - intros. apply zip_scan_None.
  - intros s Hshape Hnone.
    rewrite parse_postal by (unfold is_postal_shape; now rewrite Hshape).
    now rewrite resolve_zip_shape, Hnone.
Qed.

Lemma zip_prefix_resolution_witness :
  _resolve_us_zip "78701-0001" = zip_scan 787 _ZIP_STATE_RANGES
  /\ parse_location_input " 00100 "
     = inr (mkLocationQuery " 00100 " None None None (Some "00100")).
Proof.
  split.
  - apply (proj1 (proj2 (proj2 (proj2 zip_prefix_resolution)))); vm_compute.
    + lia.
    + reflexivity.
  - apply (proj2 (proj2 (proj2 (proj2 (proj2 (proj2 zip_prefix_resolution)))))).
    + reflexivity.
    + reflexivity.
Defined.

(** ** A region and its country *)

(** C9: in ["Ontario, Canada"] both segments are consumed, "Canada" as the
    country and "Ontario" as the region; the leftmost segment is then taken
    again as the fallback city, and the city is dropped at the end because
    it equals the region up to case. *)
Theorem parse_ontario_canada :
  let components := split_components (PyStr.strip "Ontario, Canada") in
  let scanned := scan_components components in
  let st := infer_country (peel_trailing (fallback_city components scanned)) in
  components = ["Ontario"; "Canada"]
  /\ scanned = mkFields None (Some "Ontario") (Some "Canada")
  /\ fallback_city components scanned
     = mkFields (Some "Ontario") (Some "Ontario") (Some "Canada")
  /\ st = mkFields (Some "Ontario") (Some "Ontario") (Some "Canada")
  /\ strip_city (f_city st) = Some "Ontario"
  /\ drop_if_same (strip_city (f_city st)) (f_region st) = None
  /\ parse_location_input "Ontario, Canada"
     = inr (mkLocationQuery "Ontario, Canada" None (Some "Ontario") (Some "Canada") None).
Proof. vm_compute. repeat split; reflexivity. Qed.

Example parse_examples :
  parse_location_input "Austin, TX, USA"
  = inr (mkLocationQuery "Austin, TX, USA" (Some "Austin") (Some "Texas")
           (Some "United States") None)
  /\ parse_location_input "Austin TX"
     = inr (mkLocationQuery "Austin TX" (Some "Austin") (Some "Texas")
              (Some "United States") None)
  /\ parse_location_input "somewhere in Galicia"
     = inr (mkLocationQuery "somewhere in Galicia" (Some "somewhere in Galicia")
              None None None)
  /\ parse_location_input "  Galicia "
     = inr (mkLocationQuery "  Galicia " None (Some "Galicia") (Some "Spain") None).
Proof. repeat split; reflexivity. Qed.

(** ** The next visible event *)

Lemma is_visible_from_Exists event location :
  is_visible_from event location = true <->
  Exists (fun window => _window_matches_location window location = true)
    (visibility event).
Proof.
  unfold is_visible_from.
  induction (visibility event) as [|w ws IH]; simpl.
  - split; [discriminate | intros H; inversion H].
  - destruct (_window_matches_location w location) eqn:Hw.
    + split; [intros _; now constructor | reflexivity].
    + rewrite IH. split; [now constructor|].
      intros H. inversion H; subst; [congruence | assumption].
Qed.

Lemma scan_events_step event events location reference_date :
  scan_events (event :: events) location reference_date
  = if negb (date_ltb (occurs_on event) reference_date) && is_visible_from event location
    then Some event
    else scan_events events location reference_date.
Proof.
  simpl. destruct (date_ltb (occurs_on event) reference_date); [reflexivity|].
  now destruct (is_visible_from event location).
Qed.

Lemma qualifies_iff location reference_date event :
  qualifies location reference_date event <->
  negb (date_ltb (occurs_on event) reference_date) && is_visible_from event location = true.
Proof.
  unfold qualifies. rewrite andb_true_iff, negb_true_iff, is_visible_from_Exists.
  reflexivity.
Qed.

Lemma scan_events_Some events location reference_date event :
  scan_events events location reference_date = Some event <->
  exists pre post,
    events = (pre ++ event :: post)%list
    /\ qualifies location reference_date event
    /\ Forall (fun earlier => ~ qualifies location reference_date earlier) pre.
Proof.
  induction events as [|e events IH].
  - simpl. split; [discriminate|]. intros ([|??] & ? & ? & _); discriminate.
  - rewrite scan_events_step.
    destruct (negb (date_ltb (occurs_on e) reference_date) && is_visible_from e location)
      eqn:Hq.
    + apply qualifies_iff in Hq. split.
      * intros [= <-]. exists [], events. auto.
      * intros ([|x pre] & post & Heq & _ & Hpre).
        -- now injection Heq as <- _.
        -- injection Heq as <- _. inversion Hpre; subst. tauto.
    + assert (Hn : ~ qualifies location reference_date e)
        by (rewrite qualifies_iff; congruence).
      rewrite IH. split.
      * intros (pre & post & -> & Hev & Hpre).
        exists (e :: pre), post. auto.
      * intros ([|x pre] & post & Heq & Hev & Hpre).
        -- injection Heq as <- _. tauto.
        -- injection Heq as <- ->. inversion Hpre; subst. eauto.
Qed.

Lemma scan_events_None events location reference_date :
  scan_events events location reference_date = None <->
  Forall (fun event => ~ qualifies location reference_date event) events.
Proof.
  induction events as [|e events IH].
  - simpl. split; [constructor | reflexivity].
  - rewrite scan_events_step.
    destruct (negb (date_ltb (occurs_on e) reference_date) && is_visible_from e location)
      eqn:Hq.
    + apply qualifies_iff in Hq. split; [discriminate|].
      intros H. inversion H; subst. tauto.
    + assert (Hn : ~ qualifies location reference_date e)
        by (rewrite qualifies_iff; congruence).
      rewrite IH. split; [now constructor | intros H; now inversion H].
Qed.

(** C3: for every event sequence (date-ascending or not), location and
    reference date, [next_visible_event] returns the first event of the
    sequence whose date is not before the reference date and one of whose
    windows matches the location, and nothing when there is none; so it
    returns nothing when every event lies before the reference date. *)
Theorem next_visible_event_first
    (events : list EclipseEvent) (location : LocationQuery)
    (reference_date today : date) :
  (forall event,
      next_visible_event events location (Some reference_date) today = Some event <->
      exists pre post,
        events = (pre ++ event :: post)%list
        /\ qualifies location reference_date event
        /\ Forall (fun earlier => ~ qualifies location reference_date earlier) pre)
  /\ (next_visible_event events location (Some reference_date) today = None <->
      Forall (fun event => ~ qualifies location reference_date event) events)
  /\ (Forall (fun event => date_ltb (occurs_on event) reference_date = true) events ->
      next_visible_event events location (Some reference_date) today = None).
Proof.
  unfold next_visible_event. split; [|split].
  - intros event. apply scan_events_Some.
  - apply scan_events_None.
  - intros H. apply scan_events_None.
    eapply Forall_impl; [exact H|]. simpl.
    intros e He [Hd _]. congruence.
Qed.

Lemma next_visible_event_first_witness :
  let everywhere := mkVisibilityWindow [] [] "" in
  let e1 := mkEclipseEvent (mkDate 2024 4 8) "solar" "Total" "a" [everywhere] "" in
  let e2 := mkEclipseEvent (mkDate 2026 8 12) "solar" "Total" "b" [everywhere] "" in
  let location := mkLocationQuery "Austin" (Some "Austin") None None None in
  next_visible_event [e1; e2] location (Some (mkDate 2027 1 1)) (mkDate 2020 1 1) = None.
Proof.
  intros everywhere e1 e2 location.
  apply (proj2 (proj2 (next_visible_event_first [e1; e2] location
                         (mkDate 2027 1 1) (mkDate 2020 1 1)))).
  repeat constructor.
Defined.

(** ** Matching one window *)

Lemma set_nonempty_empty : set_nonempty ∅ = false.
Proof. apply bool_decide_eq_false. intros H. now apply H. Qed.


Lemma intersects_false (a b : gset string) : a ∩ b = ∅ -> intersects a b = false.
Proof.
  intros H. unfold intersects. rewrite H. apply set_nonempty_empty.
Qed.



(** C5: a window with no countries and the region "North America" matches
    a location whose only field is the country "United States": the tokens
    of the location hold "north america", the macro-region of that country,
    and meet the window's regions, although no field of the location is
    "North America". *)
Theorem macro_region_overlap (raw notes : string) :
  let location := mkLocationQuery raw None None (Some "United States") None in
  let window := mkVisibilityWindow [] ["North America"] notes in
  _COUNTRY_MACROREGIONS !! "United States" = Some {["north america"]}
  /\ "north america" ∈ tokens location
  /\ lower_in (region location) (lowered (regions window)) = false
  /\ intersects (tokens location) (lowered (regions window)) = true
  /\ _window_matches_location window location = true.
Proof.
  intros location window.
  split; [vm_compute; reflexivity|].
  split; [refine (proj1 (bool_decide_eq_true _) _); vm_compute; reflexivity|].
  repeat split; vm_compute; reflexivity.
Qed.

(** C6: a window with no countries and no regions matches every location,
    also one that has nothing but its raw text. *)
Theorem empty_window_matches_all (notes : string) (location : LocationQuery) :
  _window_matches_location (mkVisibilityWindow [] [] notes) location = true
  /\ forall raw,
       _window_matches_location (mkVisibilityWindow [] [] notes)
         (mkLocationQuery raw None None None None) = true.
Proof.
  assert (H : forall l, _window_matches_location (mkVisibilityWindow [] [] notes) l = true).
  { intros l. unfold _window_matches_location. simpl.
    change (lowered []) with (∅ : gset string).
    now rewrite set_nonempty_empty. }
  split; [apply H | intros; apply H].
Qed.

(** ** The region alias table *)

Lemma add_entry_hit c (m : gmap string (string * option string)) entry k :
  registers k entry -> add_entry c m entry !! k = Some (entry.1, c).
Proof.
  destruct entry as [name abbr]. unfold registers, add_entry. simpl.
  intros [<- | [Habbr <-]].
  - destruct (PyStr.nonempty abbr).
    + rewrite lookup_insert. case_decide; [reflexivity|]. apply lookup_insert_eq.
    + apply lookup_insert_eq.
  - destruct abbr; [congruence|]. simpl. apply lookup_insert_eq.
Qed.

Lemma add_entry_miss c (m : gmap string (string * option string)) entry k :
  ~ registers k entry -> add_entry c m entry !! k = m !! k.
Proof.
  destruct entry as [name abbr]. unfold registers, add_entry. simpl.
  intros H.
  assert (Hname : PyStr.lower name <> k) by tauto.
  destruct abbr as [|a abbr]; simpl.
  - now rewrite lookup_insert_ne.
  - rewrite !lookup_insert_ne; [reflexivity | exact Hname |].
    intros Heq. apply H. right. split; [discriminate | exact Heq].
Qed.

Lemma add_miss entries c (m : gmap string (string * option string)) k :
  Forall (fun entry => ~ registers k entry) entries ->
  add entries c m !! k = m !! k.
Proof.
  unfold add. intros H. revert m.
  induction H as [|e entries He _ IH]; intros m; simpl; [reflexivity|].
  now rewrite IH, add_entry_miss.
Qed.

Lemma add_last_wins pre entry post c (m : gmap string (string * option string)) k :
  registers k entry ->
  Forall (fun later => ~ registers k later) post ->
  add (pre ++ entry :: post) c m !! k = Some (entry.1, c).
Proof.
  intros He Hpost. unfold add. rewrite foldl_app. simpl.
  fold (add post c (add_entry c (foldl (add_entry c) m pre) entry)).
  rewrite add_miss by exact Hpost. now apply add_entry_hit.
Qed.

(** C10: the alias table is the empty map to which the tables of the
    United States, Canada, Mexico, Spain, Australia and New Zealand are
    added in this order, followed by the macro-region aliases.  Within
    [add] the last entry that registers a key owns it, whatever the map
    held before, and a key no entry registers keeps its earlier owner.  So
    "wa", Washington after the first table, ends as Western Australia, and
    "nt", Northwest Territories after the second, ends as Northern
    Territory. *)
Theorem region_alias_last_owner :
  _REGION_ALIAS_LOOKUP
  = foldl (fun d kv => <[kv.1 := kv.2]> d)
      (foldl (fun d table => add table.1 table.2 d) ∅ region_tables)
      macro_region_aliases
  /\ (forall pre entry post c (m : gmap string (string * option string)) k,
        registers k entry ->
        Forall (fun later => ~ registers k later) post ->
        add (pre ++ entry :: post) c m !! k = Some (entry.1, c))
  /\ (forall entries c (m : gmap string (string * option string)) k,
        Forall (fun entry => ~ registers k entry) entries ->
        add entries c m !! k = m !! k)
  /\ add _US_STATES (Some "United States") ∅ !! "wa"
     = Some ("Washington", Some "United States")
  /\ add _CANADA_PROVINCES (Some "Canada") (add _US_STATES (Some "United States") ∅) !! "nt"
     = Some ("Northwest Territories", Some "Canada")
  /\ _REGION_ALIAS_LOOKUP !! _normalise_token "wa"
     = Some ("Western Australia", Some "Australia")
  /\ _REGION_ALIAS_LOOKUP !! _normalise_token "nt"
     = Some ("Northern Territory", Some "Australia")
  /\ _REGION_ALIAS_LOOKUP !! _normalise_token " NT "
     = Some ("Northern Territory", Some "Australia").
Proof.
  split; [reflexivity|].
  split; [intros; now apply add_last_wins|].
  split; [intros; now apply add_miss|].
  repeat split; vm_compute; reflexivity.
Qed.

Lemma region_alias_last_owner_witness :
  add [("Western Australia", "WA"); ("Victoria", "VIC")] (Some "Australia")
    (add [("Washington", "WA")] (Some "United States") ∅) !! "wa"
  = Some ("Western Australia", Some "Australia").
Proof.
  apply (proj1 (proj2 region_alias_last_owner)
           [] ("Western Australia", "WA") [("Victoria", "VIC")]).
  - right. split; [discriminate | reflexivity].
  - repeat constructor. intros [H | [_ H]]; discriminate H.
Defined.

(** * Further properties of the modules *)

(** ** The values of the alias tables *)

Lemma country_values_ok :
  map_Forall (fun _ v => country_value_ok v = true) _COUNTRY_CANONICAL.
Proof. apply (bool_decide_unpack _). vm_compute. exact I. Qed.

Lemma region_values_ok :
  map_Forall (fun _ v => region_value_ok v = true) _REGION_ALIAS_LOOKUP.
Proof. apply (bool_decide_unpack _). vm_compute. exact I. Qed.

Lemma country_value_ok_spec v :
  country_value_ok v = true ->
  PyStr.nonempty v = true
  /\ _COUNTRY_CANONICAL !! _normalise_token v = Some v
  /\ PyStr.strip v = v.
Proof.
  unfold country_value_ok. rewrite !andb_true_iff, !bool_decide_eq_true. tauto.
Qed.

Lemma canonical_country_facts c :
  canonical_country c ->
  PyStr.nonempty c = true
  /\ _COUNTRY_CANONICAL !! _normalise_token c = Some c
  /\ PyStr.strip c = c.
Proof.
  intros [alias H]. apply country_value_ok_spec.
  exact (map_Forall_lookup_1 _ _ _ _ country_values_ok H).
Qed.

Lemma region_value_facts alias r owner :
  _REGION_ALIAS_LOOKUP !! alias = Some (r, owner) ->
  PyStr.nonempty r = true
  /\ _REGION_ALIAS_LOOKUP !! _normalise_token r = Some (r, owner)
  /\ _REGION_ALIAS_LOOKUP !! PyStr.lower r = Some (r, owner)
  /\ (forall c, owner = Some c -> canonical_country c).
Proof.
  intros H. pose proof (map_Forall_lookup_1 _ _ _ _ region_values_ok H) as Hok.
  unfold region_value_ok in Hok. cbn [fst snd] in Hok.
  rewrite !andb_true_iff, !bool_decide_eq_true in Hok.
  destruct Hok as [[[Hne Hn] Hl] Hc]. repeat split; try assumption.
  intros c ->. apply country_value_ok_spec in Hc as (_ & Hc & _).
  now exists (_normalise_token c).
Qed.

Lemma strip_nonempty_arg s : PyStr.strip s <> "" -> PyStr.nonempty s = true.
Proof. destruct s; [intros H; now elim H | reflexivity]. Qed.

Lemma nonempty_true s : PyStr.nonempty s = true <-> s <> "".
Proof. destruct s; simpl; split; congruence. Qed.

Lemma normalise_token_strip s : _normalise_token (PyStr.strip s) = _normalise_token s.
Proof. unfold _normalise_token. now rewrite strip_idem. Qed.

(** ** Canonical names are fixed points *)

(** X1: [normalize_country] is idempotent on every ASCII name that is not
    blank: normalising its result again changes nothing, and every
    canonical country name is returned as it is.  A name of whitespace only
    is the exception: it normalises to the empty string, which normalises
    to [None]. *)
Theorem normalize_country_idempotent (name : string) :
  (PyStr.isascii name = true -> PyStr.strip name <> "" ->
   normalize_country (normalize_country (Some name)) = normalize_country (Some name))
  /\ (canonical_country name -> normalize_country (Some name) = Some name)
  /\ normalize_country (Some "  ") = Some ""
  /\ normalize_country (normalize_country (Some "  ")) = None.
Proof.
  split; [|split; [|split; vm_compute; reflexivity]].
  - intros _ Hs. unfold normalize_country at 2 3.
    rewrite (strip_nonempty_arg _ Hs).
    destruct (_COUNTRY_CANONICAL !! _normalise_token name) as [v|] eqn:Hv; cbn [default from_option id].
    + destruct (canonical_country_facts v) as (Hne & Hl & _); [now exists (_normalise_token name)|].
      unfold normalize_country. now rewrite Hne, Hl.
    + unfold normalize_country.
      rewrite (proj2 (nonempty_true _) Hs), normalise_token_strip, Hv. cbn [default from_option id].
      now rewrite strip_idem.
  - intros Hc. destruct (canonical_country_facts _ Hc) as (Hne & Hl & _).
    unfold normalize_country. now rewrite Hne, Hl.
Qed.

Lemma normalize_country_idempotent_witness :
  normalize_country (normalize_country (Some " usa ")) = normalize_country (Some " usa ")
  /\ normalize_country (Some "South Korea") = Some "South Korea".
Proof.
  split.
  - apply (proj1 (normalize_country_idempotent " usa ")); vm_compute;
      [reflexivity | discriminate].
  - apply (proj1 (proj2 (normalize_country_idempotent "South Korea"))).
    exists "korea". vm_compute. reflexivity.
Defined.

(** X2: [normalize_region] is idempotent on every ASCII name that is not
    blank, and returns every canonical region name (state, province or
    macro-region of the alias table) as it is. *)
Theorem normalize_region_idempotent (name : string) :
  (PyStr.isascii name = true -> PyStr.strip name <> "" ->
   normalize_region (normalize_region (Some name)) = normalize_region (Some name))
  /\ (canonical_region name -> normalize_region (Some name) = Some name).
Proof.
  split.
  - intros _ Hs. unfold normalize_region at 2 3.
    rewrite (strip_nonempty_arg _ Hs).
    destruct (_REGION_ALIAS_LOOKUP !! _normalise_token name) as [[r owner]|] eqn:Hv; cbn [fst].
    + destruct (region_value_facts _ _ _ Hv) as (Hne & Hl & _).
      unfold normalize_region. now rewrite Hne, Hl.
    + unfold normalize_region.
      rewrite (proj2 (nonempty_true _) Hs), normalise_token_strip, Hv.
      now rewrite strip_idem.
  - intros (alias & owner & Hr).
    destruct (region_value_facts _ _ _ Hr) as (Hne & Hl & _).
    unfold normalize_region. now rewrite Hne, Hl.
Qed.

Lemma normalize_region_idempotent_witness :
  normalize_region (normalize_region (Some "tx")) = normalize_region (Some "tx")
  /\ normalize_region (Some "Western Australia") = Some "Western Australia".
Proof.
  split.
  - apply (proj1 (normalize_region_idempotent "tx")); vm_compute;
      [reflexivity | discriminate].
  - apply (proj2 (normalize_region_idempotent "Western Australia")).
    exists "wa", (Some "Australia"). vm_compute. reflexivity.
Defined.

(** ** What the parser keeps between its steps *)

Lemma all_chars_append p a b :
  PyStr.all_chars p (a ++ b)%string = PyStr.all_chars p a && PyStr.all_chars p b.
Proof.
  induction a as [|c a IH]; simpl; [reflexivity|].
  now rewrite IH, andb_assoc.
Qed.

Lemma strip_append_nonblank a b : PyStr.strip a <> "" -> PyStr.strip (a ++ b) <> "".
Proof.
  rewrite !strip_empty_iff, all_chars_append.
  destruct (PyStr.all_chars PyStr.isspace a); [congruence | cbn [andb]; congruence].
Qed.

Lemma strip_strip_nonblank a : PyStr.strip a <> "" -> PyStr.strip (PyStr.strip a) <> "".
Proof. now rewrite strip_idem. Qed.

Lemma split_components_nonblank raw :
  Forall (fun component => PyStr.strip component <> "") (split_components raw).
Proof.
  unfold split_components.
  induction (PyStr.split_on "," raw) as [|field fields IH]; cbn [List.filter map].
  - constructor.
  - destruct (PyStr.nonempty (PyStr.strip field)) eqn:Hf; [|exact IH].
    cbn [map]. constructor; [|exact IH].
    rewrite strip_idem. now apply nonempty_true.
Qed.

Lemma country_hit_canonical (guard : bool) token cand :
  (if guard then
     match _COUNTRY_CANONICAL !! token with
     | Some country_candidate =>
         if PyStr.nonempty country_candidate then Some country_candidate else None
     | None => None
     end
   else None) = Some cand ->
  canonical_country cand.
Proof.
  destruct guard; [|discriminate].
  destruct (_COUNTRY_CANONICAL !! token) as [c|] eqn:Hc; [|discriminate].
  destruct (PyStr.nonempty c); [|discriminate].
  intros [= <-]. now exists token.
Qed.

Lemma region_hit_canonical (guard : bool) token r owner :
  (if guard then _REGION_ALIAS_LOOKUP !! token else None) = Some (r, owner) ->
  _REGION_ALIAS_LOOKUP !! token = Some (r, owner).
Proof. destruct guard; [exact id | discriminate]. Qed.

Lemma inferred_ok (owner current : option string) (b : bool) :
  (forall c, owner = Some c -> canonical_country c) ->
  (forall c, current = Some c -> canonical_country c) ->
  forall c, (if b then owner else current) = Some c -> canonical_country c.
Proof. destruct b; auto. Qed.

Lemma scan_component_ok st component :
  PyStr.strip component <> "" -> fields_ok st -> fields_ok (scan_component st component).
Proof.
  intros Hc [Hcity Hregion Hcountry]. unfold scan_component.
  match goal with |- context [match ?h with Some _ => _ | None => _ end] =>
    destruct h as [cand|] eqn:Hhit end.
  - apply country_hit_canonical in Hhit.
    constructor; cbn [f_city f_region f_country]; auto.
    now intros c [= <-].
  - match goal with |- context [match ?h with Some _ => _ | None => _ end] =>
      destruct h as [[r owner]|] eqn:Hr end.
    + apply region_hit_canonical in Hr.
      destruct (region_value_facts _ _ _ Hr) as (_ & _ & _ & Howner).
      constructor; cbn [f_city f_region f_country]; auto.
      * intros r' [= <-]. now exists (_normalise_token component), owner.
      * now apply inferred_ok.
    + destruct (f_city st) as [c|] eqn:Hcs.
      * destruct (PyStr.nonempty c);
          constructor; cbn [f_city f_region f_country]; auto.
        -- intros c' [= <-]. now apply strip_append_nonblank, strip_strip_nonblank.
        -- intros c' [= <-]. now apply strip_strip_nonblank.
      * constructor; cbn [f_city f_region f_country]; auto.
        intros c' [= <-]. now apply strip_strip_nonblank.
Qed.

Lemma scan_component_some st component :
  PyStr.strip component <> "" -> some_field (scan_component st component) = true.
Proof.
  intros Hc. unfold scan_component, some_field.
  match goal with |- context [match ?h with Some _ => _ | None => _ end] =>
    destruct h as [cand|] eqn:Hhit end.
  - apply country_hit_canonical, canonical_country_facts in Hhit as (Hne & _).
    cbn [f_city f_region f_country PyStr.truthy]. rewrite Hne. apply orb_true_r.
  - match goal with |- context [match ?h with Some _ => _ | None => _ end] =>
      destruct h as [[r owner]|] eqn:Hr end.
    + apply region_hit_canonical, region_value_facts in Hr as (Hne & _).
      cbn [f_city f_region f_country PyStr.truthy]. rewrite Hne.
      now rewrite orb_true_r.
    + assert (Hs : PyStr.nonempty (PyStr.strip component) = true) by now apply nonempty_true.
      destruct (f_city st) as [c|]; [destruct (PyStr.nonempty c)|];
        cbn [f_city f_region f_country PyStr.truthy]; rewrite ?Hs; try reflexivity.
      destruct (PyStr.strip component); [discriminate | reflexivity].
Qed.

Lemma foldl_scan_ok components st :
  Forall (fun component => PyStr.strip component <> "") components ->
  fields_ok st -> fields_ok (foldl scan_component st components).
Proof.
  intros H. revert st. induction H as [|c cs Hc _ IH]; intros st Hst; cbn [foldl].
  - exact Hst.
  - apply IH. now apply scan_component_ok.
Qed.

Lemma fields_ok_init : fields_ok (mkFields None None None).
Proof. constructor; cbn [f_city f_region f_country]; discriminate. Qed.

Lemma scan_components_ok components :
  Forall (fun component => PyStr.strip component <> "") components ->
  fields_ok (scan_components components).
Proof.
  intros H. apply foldl_scan_ok; [now apply List.Forall_rev | apply fields_ok_init].
Qed.

Lemma scan_components_some components :
  Forall (fun component => PyStr.strip component <> "") components ->
  components <> [] -> some_field (scan_components components) = true.
Proof.
  intros H Hne. destruct components as [|c cs]; [congruence|].
  unfold scan_components. cbn [rev]. rewrite foldl_app. cbn [foldl].
  apply scan_component_some. now inversion H.
Qed.

Lemma fallback_city_ok components st :
  Forall (fun component => PyStr.strip component <> "") components ->
  fields_ok st -> fields_ok (fallback_city components st).
Proof.
  intros Hcs Hst. unfold fallback_city.
  destruct (negb (PyStr.truthy (f_city st))); [|exact Hst].
  destruct Hcs as [|c cs Hc _]; [exact Hst|].
  destruct Hst as [_ Hr Hco]. constructor; cbn [f_city f_region f_country]; auto.
  intros c' [= <-]. now apply strip_strip_nonblank.
Qed.

Lemma fallback_city_some components st :
  some_field st = true -> some_field (fallback_city components st) = true.
Proof.
  intros H. unfold fallback_city.
  destruct (negb (PyStr.truthy (f_city st))) eqn:Hc; [|exact H].
  destruct components as [|c cs]; [exact H|].
  unfold some_field in *. cbn [f_city f_region f_country].
  apply negb_true_iff in Hc. rewrite Hc in H. cbn [orb] in H.
  rewrite <- orb_assoc, H. apply orb_true_r.
Qed.

Lemma or_None_Some s c : or_None s = Some c <-> s = c /\ c <> "".
Proof.
  unfold or_None. destruct s; cbn [PyStr.nonempty]; split.
  - discriminate.
  - intros [<- H]. congruence.
  - intros [= <-]. split; [reflexivity | discriminate].
  - now intros [<- _].
Qed.

Lemma peel_trailing_ok st : fields_ok st -> fields_ok (peel_trailing st).
Proof.
  intros Hst. unfold peel_trailing.
  destruct (f_city st) as [c|]; [|exact Hst].
  destruct (PyStr.nonempty c); [|exact Hst].
  destruct (Re.search_trailing c) as [[start group1]|]; [|exact Hst].
  destruct (negb (PyStr.truthy (f_region st))); [|exact Hst].
  destruct (_REGION_ALIAS_LOOKUP !! PyStr.lower group1) as [[r owner]|] eqn:Hr; [|exact Hst].
  destruct (region_value_facts _ _ _ Hr) as (_ & _ & _ & Howner).
  destruct Hst as [_ _ Hco]. constructor; cbn [f_city f_region f_country].
  - intros c' [<- Hc']%or_None_Some. now rewrite strip_idem.
  - intros r' [= <-]. now exists (PyStr.lower group1), owner.
  - now apply inferred_ok.
Qed.

Lemma peel_trailing_some st : some_field st = true -> some_field (peel_trailing st) = true.
Proof.
  intros H. unfold peel_trailing.
  destruct (f_city st) as [c|]; [|exact H].
  destruct (PyStr.nonempty c); [|exact H].
  destruct (Re.search_trailing c) as [[start group1]|]; [|exact H].
  destruct (negb (PyStr.truthy (f_region st))); [|exact H].
  destruct (_REGION_ALIAS_LOOKUP !! PyStr.lower group1) as [[r owner]|] eqn:Hr; [|exact H].
  destruct (region_value_facts _ _ _ Hr) as (Hne & _).
  unfold some_field. cbn [f_city f_region f_country PyStr.truthy].
  rewrite Hne. now rewrite orb_true_r.
Qed.

Lemma infer_country_ok st : fields_ok st -> fields_ok (infer_country st).
Proof.
  intros Hst. unfold infer_country.
  destruct (f_region st) as [r|] eqn:Hreg; [|exact Hst].
  destruct (PyStr.nonempty r && negb (PyStr.truthy (f_country st))); [|exact Hst].
  destruct (_REGION_ALIAS_LOOKUP !! PyStr.lower r) as [[r' owner]|] eqn:Hr; [|exact Hst].
  destruct (PyStr.truthy owner); [|exact Hst].
  destruct (region_value_facts _ _ _ Hr) as (_ & _ & _ & Howner).
  destruct Hst as [Hc Hre _]. constructor; cbn [f_city f_region f_country]; auto.
  intros r0 [= <-]. now apply Hre.
Qed.

Lemma infer_country_some st : some_field st = true -> some_field (infer_country st) = true.
Proof.
  intros H. unfold infer_country.
  destruct (f_region st) as [r|] eqn:Hreg; [|exact H].
  destruct (PyStr.nonempty r && negb (PyStr.truthy (f_country st))); [|exact H].
  destruct (_REGION_ALIAS_LOOKUP !! PyStr.lower r) as [[r' owner]|] eqn:Hr; [|exact H].
  destruct (PyStr.truthy owner) eqn:Ho; [|exact H].
  unfold some_field. cbn [f_city f_region f_country]. rewrite Ho. apply orb_true_r.
Qed.

Lemma infer_country_region st : f_region (infer_country st) = f_region st.
Proof.
  unfold infer_country.
  destruct (f_region st) as [r|] eqn:Hreg; [|exact Hreg].
  destruct (PyStr.nonempty r && negb (PyStr.truthy (f_country st))); [|exact Hreg].
  destruct (_REGION_ALIAS_LOOKUP !! PyStr.lower r) as [[r' owner]|]; [|exact Hreg].
  destruct (PyStr.truthy owner); [reflexivity | exact Hreg].
Qed.

(** After [infer_country], a region that belongs to a country comes with a
    country. *)
Lemma infer_country_owned st r alias owner :
  fields_ok st ->
  f_region st = Some r ->
  _REGION_ALIAS_LOOKUP !! alias = Some (r, Some owner) ->
  PyStr.truthy (f_country (infer_country st)) = true.
Proof.
  intros Hst Hreg Hal.
  destruct (region_value_facts _ _ _ Hal) as (Hne & _ & Hl & Hown).
  destruct (canonical_country_facts owner (Hown _ eq_refl)) as (Howner & _).
  unfold infer_country. rewrite Hreg, Hne. cbn [andb].
  destruct (PyStr.truthy (f_country st)) eqn:Hco; cbn [negb]; [exact Hco|].
  rewrite Hl. cbn [PyStr.truthy]. rewrite Howner. cbn [f_country PyStr.truthy]. exact Howner.
Qed.

Lemma parsed_fields_ok raw : fields_ok (parsed_fields raw).
Proof.
  unfold parsed_fields. pose proof (split_components_nonblank raw) as H.
  now apply infer_country_ok, peel_trailing_ok, fallback_city_ok, scan_components_ok.
Qed.

Lemma parsed_fields_some raw :
  split_components raw <> [] -> some_field (parsed_fields raw) = true.
Proof.
  intros Hne. unfold parsed_fields. pose proof (split_components_nonblank raw) as H.
  now apply infer_country_some, peel_trailing_some, fallback_city_some,
    scan_components_some.
Qed.

Lemma normalize_country_fixed (o : option string) :
  (forall c, o = Some c -> canonical_country c) -> normalize_country o = o.
Proof.
  destruct o as [c|]; [|reflexivity]. intros H.
  destruct (canonical_country_facts c (H _ eq_refl)) as (Hne & Hl & _).
  unfold normalize_country. now rewrite Hne, Hl.
Qed.

Lemma normalize_region_fixed (o : option string) :
  (forall r, o = Some r -> canonical_region r) -> normalize_region o = o.
Proof.
  destruct o as [r|]; [|reflexivity]. intros H.
  destruct (H _ eq_refl) as (alias & owner & Hr).
  destruct (region_value_facts _ _ _ Hr) as (Hne & Hl & _).
  unfold normalize_region. now rewrite Hne, Hl.
Qed.

(** The two shapes of a successful parse. *)
Lemma parse_cases s location :
  parse_location_input s = inr location ->
  (is_postal_shape (PyStr.strip s) = true
   /\ location = mkLocationQuery s None
                   (fst <$> resolve_postal_code (PyStr.strip s))
                   (snd <$> resolve_postal_code (PyStr.strip s))
                   (Some (PyStr.strip s)))
  \/ (is_postal_shape (PyStr.strip s) = false
      /\ PyStr.strip s <> ""
      /\ location = mkLocationQuery s
                      (collapse_city (parsed_fields (PyStr.strip s)))
                      (f_region (parsed_fields (PyStr.strip s)))
                      (f_country (parsed_fields (PyStr.strip s)))
                      None).
Proof.
  intros H. destruct (is_postal_shape (PyStr.strip s)) eqn:Hp.
  - left. split; [reflexivity|]. rewrite parse_postal in H by exact Hp. congruence.
  - right. split; [reflexivity|].
    unfold parse_location_input in H.
    destruct (PyStr.strip s) as [|c r] eqn:Hs; [discriminate|].
    split; [discriminate|].
    cbn [PyStr.nonempty negb] in H. rewrite Hp in H.
    fold (parsed_fields (String c r)) in H.
    pose proof (parsed_fields_ok (String c r)) as [_ Hr Hc].
    rewrite (normalize_country_fixed _ Hc), (normalize_region_fixed _ Hr) in H.
    congruence.
Qed.

(** ** The final clean-up of the city *)

Lemma strip_city_Some o c :
  (forall x, o = Some x -> PyStr.strip x <> "") ->
  strip_city o = Some c -> c <> "" /\ PyStr.strip c = c.
Proof.
  intros Ho. destruct o as [x|]; [|discriminate].
  specialize (Ho x eq_refl). unfold strip_city.
  rewrite (strip_nonempty_arg _ Ho).
  intros [<- Hc]%or_None_Some. split; [exact Hc | apply strip_idem].
Qed.

Lemma drop_if_same_Some o other c :
  drop_if_same o other = Some c ->
  o = Some c
  /\ (c <> "" -> forall x, other = Some x -> x <> "" -> PyStr.lower c <> PyStr.lower x).
Proof.
  unfold drop_if_same. destruct o as [c0|]; [|discriminate].
  destruct other as [x0|].
  - destruct (PyStr.nonempty c0 && PyStr.nonempty x0
              && bool_decide (PyStr.lower c0 = PyStr.lower x0)) eqn:Hb; [discriminate|].
    intros [= <-]. split; [reflexivity|].
    intros Hc x [= <-] Hx Heq.
    apply nonempty_true in Hc. apply nonempty_true in Hx.
    rewrite Hc, Hx in Hb. cbn [andb] in Hb.
    apply bool_decide_eq_false in Hb. contradiction.
  - intros [= <-]. split; [reflexivity | discriminate].
Qed.

Lemma collapse_city_Some st c :
  fields_ok st ->
  collapse_city st = Some c ->
  c <> "" /\ PyStr.strip c = c
  /\ (forall r, f_region st = Some r -> PyStr.lower c <> PyStr.lower r)
  /\ (forall k, f_country st = Some k -> PyStr.lower c <> PyStr.lower k).
Proof.
  intros [Hcity Hregion Hcountry]. unfold collapse_city.
  intros [H2 Hk]%drop_if_same_Some. apply drop_if_same_Some in H2 as [H1 Hr].
  destruct (strip_city_Some _ _ Hcity H1) as [Hc Hs].
  repeat split; try assumption.
  - intros r Hreg. apply (Hr Hc r Hreg). apply nonempty_true.
    destruct (Hregion r Hreg) as (alias & owner & Hal).
    now destruct (region_value_facts _ _ _ Hal).
  - intros k Hco. apply (Hk Hc k Hco). apply nonempty_true.
    now destruct (canonical_country_facts k (Hcountry k Hco)).
Qed.

Lemma collapse_city_kept st :
  fields_ok st -> some_field st = true ->
  PyStr.truthy (collapse_city st) || PyStr.truthy (f_region st)
  || PyStr.truthy (f_country st) = true.
Proof.
  intros [Hcity _ _] Hsome. unfold some_field in Hsome.
  destruct (PyStr.truthy (f_region st)) eqn:Hr; [now rewrite orb_true_r|].
  destruct (PyStr.truthy (f_country st)) eqn:Hc; [now rewrite orb_true_r|].
  rewrite !orb_false_r in Hsome |- *.
  destruct (f_city st) as [c|] eqn:Hci; [|discriminate].
  cbn [PyStr.truthy] in Hsome. specialize (Hcity c eq_refl).
  unfold collapse_city. rewrite Hci. unfold strip_city. rewrite Hsome.
  destruct (PyStr.strip c) as [|a rest] eqn:Hs; [congruence|].
  cbn [or_None PyStr.nonempty]. unfold drop_if_same.
  destruct (f_region st) as [r|], (f_country st) as [k|];
    cbn [PyStr.truthy] in Hr, Hc; rewrite ?Hr, ?Hc; cbn [PyStr.nonempty andb];
    reflexivity.
Qed.

(** ** What the postal resolver returns *)

Lemma resolve_postal_facts code r c :
  resolve_postal_code code = Some (r, c) ->
  (c = "United States" /\ exists lo hi, (lo, hi, r) ∈ _ZIP_STATE_RANGES)
  \/ (c = "Canada" /\ exists letter, _CANADA_POSTAL_PREFIX !! letter = Some r).
Proof.
  unfold resolve_postal_code.
  destruct (negb (PyStr.nonempty (PyStr.strip code))); [discriminate|].
  destruct (Re.fullmatch Re.zip_re (PyStr.strip code)).
  - unfold _resolve_us_zip.
    destruct (_ <? 3)%nat; [discriminate|].
    destruct (PyStr.int _) as [prefix|]; [|discriminate].
    intros (-> & pre & lo & hi & post & Heq & _)%zip_scan_Some.
    left. split; [reflexivity|]. exists lo, hi. rewrite Heq.
    apply elem_of_app. right. apply elem_of_cons. now left.
  - destruct (Re.fullmatch Re.canadian_re (PyStr.strip code)); [|discriminate].
    unfold _resolve_canadian_postal.
    destruct (PyStr.upper _) as [|first rest]; [discriminate|].
    destruct (_CANADA_POSTAL_PREFIX !! String first "") as [province|] eqn:Hp; [|discriminate].
    destruct (PyStr.nonempty province); [|discriminate].
    intros [= <- <-]. right. split; [reflexivity|]. now exists (String first "").
Qed.

Lemma canonical_postal_countries :
  canonical_country "United States" /\ canonical_country "Canada".
Proof. split; [exists "usa" | exists "canada"]; vm_compute; reflexivity. Qed.

(** ** Invariants of a parsed location *)

(** X3: whatever the input, the country of a parsed location is a canonical
    country name of the alias table.  Its region is a canonical region name
    of the alias table on the comma-split path, and on the postal path a
    state of the ZIP table or a province of the Canadian prefix table. *)
Theorem parse_country_region_canonical (s : string) (location : LocationQuery) :
  parse_location_input s = inr location ->
  (forall c, country location = Some c -> canonical_country c)
  /\ (forall r, region location = Some r -> postal_code location = None ->
                canonical_region r)
  /\ (forall r, region location = Some r -> postal_code location <> None ->
                (exists lo hi, (lo, hi, r) ∈ _ZIP_STATE_RANGES)
                \/ (exists letter, _CANADA_POSTAL_PREFIX !! letter = Some r)).
Proof.
  intros [[Hp ->] | (Hp & Hs & ->)]%parse_cases;
    cbn [country region postal_code].
  - destruct (resolve_postal_code (PyStr.strip s)) as [[r c]|] eqn:Hres;
      cbn [fmap option_fmap option_map fst snd];
      [|repeat split; intros; discriminate].
    apply resolve_postal_facts in Hres.
    repeat split.
    + intros c' [= <-].
      destruct Hres as [[-> _] | [-> _]]; apply canonical_postal_countries.
    + intros; discriminate.
    + intros r' [= <-] _. destruct Hres as [[_ H] | [_ H]]; [now left | now right].
  - destruct (parsed_fields_ok (PyStr.strip s)) as [_ Hr Hc].
    repeat split; [exact Hc | intros r H _; now apply Hr | congruence].
Qed.

Lemma parse_country_region_canonical_witness :
  canonical_country "United States" /\ canonical_region "Texas".
Proof.
  pose proof (parse_country_region_canonical "Austin, tx"
                (mkLocationQuery "Austin, tx" (Some "Austin") (Some "Texas")
                   (Some "United States") None) eq_refl) as (Hc & Hr & _).
  split; [now apply Hc | now apply Hr].
Defined.

(** X4: a city in a parsed location is never empty, has no whitespace at
    either end, is never returned next to a postal code, and never repeats
    the region or the country of the location, letter case aside. *)
Theorem parse_city_wellformed (s : string) (location : LocationQuery) (c : string) :
  parse_location_input s = inr location ->
  city location = Some c ->
  c <> "" /\ PyStr.strip c = c
  /\ postal_code location = None
  /\ (forall r, region location = Some r -> PyStr.lower c <> PyStr.lower r)
  /\ (forall k, country location = Some k -> PyStr.lower c <> PyStr.lower k).
Proof.
  intros [[Hp ->] | (Hp & Hs & ->)]%parse_cases;
    cbn [city country region postal_code]; [discriminate|].
  intros Hc.
  destruct (collapse_city_Some _ _ (parsed_fields_ok _) Hc) as (H1 & H2 & H3 & H4).
  repeat split; assumption.
Qed.

Lemma parse_city_wellformed_witness :
  PyStr.strip "Oz qq" = "Oz qq" /\ PyStr.lower "Oz qq" <> PyStr.lower "Texas".
Proof.
  pose proof (parse_city_wellformed "Oz, qq, Texas"
                (mkLocationQuery "Oz, qq, Texas" (Some "Oz qq") (Some "Texas")
                   (Some "United States") None) "Oz qq" eq_refl eq_refl)
    as (_ & Hs & _ & Hr & _).
  split; [exact Hs | now apply Hr].
Defined.

(** X5: a parsed location whose region was resolved from a postal code, or
    whose region belongs to a country in the alias table (a state or a
    province, not a macro-region), always has a country. *)
Theorem parse_region_has_country (s : string) (location : LocationQuery) (r : string) :
  parse_location_input s = inr location ->
  region location = Some r ->
  postal_code location <> None
  \/ (exists alias owner, _REGION_ALIAS_LOOKUP !! alias = Some (r, Some owner)) ->
  exists c, country location = Some c /\ c <> "".
Proof.
  intros [[Hp ->] | (Hp & Hs & ->)]%parse_cases;
    cbn [city country region postal_code].
  - destruct (resolve_postal_code (PyStr.strip s)) as [[r' c]|] eqn:Hres;
      cbn [fmap option_fmap option_map fst snd]; [|discriminate].
    intros _ _. exists c. split; [reflexivity|].
    apply resolve_postal_facts in Hres as [[-> _] | [-> _]]; discriminate.
  - intros Hreg [Hn | (alias & owner & Hal)]; [congruence|].
    unfold parsed_fields in *.
    set (st := peel_trailing _) in *.
    assert (Hst : fields_ok st).
    { pose proof (split_components_nonblank (PyStr.strip s)).
      now apply peel_trailing_ok, fallback_city_ok, scan_components_ok. }
    rewrite infer_country_region in Hreg.
    pose proof (infer_country_owned st r alias owner Hst Hreg Hal) as Ht.
    destruct (f_country (infer_country st)) as [c|]; [|discriminate].
    exists c. split; [reflexivity | now apply nonempty_true].
Qed.

Lemma parse_region_has_country_witness :
  exists c, Some "Spain" = Some c /\ c <> "".
Proof.
  apply (parse_region_has_country "  Galicia " 
           (mkLocationQuery "  Galicia " None (Some "Galicia") (Some "Spain") None)
           "Galicia").
  - vm_compute. reflexivity.
  - reflexivity.
  - right. exists "galicia", "Spain". vm_compute. reflexivity.
Defined.

(** ** Interpretable locations *)

Section StripConverse.
Variables p q : ascii -> bool.
Hypothesis p_in_q : forall c, p c = true -> q c = true.

Lemma lstrip_with_all_back s :
  PyStr.all_chars q (PyStr.lstrip_with p s) = true -> PyStr.all_chars q s = true.
Proof.
  induction s as [|c s IH]; cbn [PyStr.lstrip_with PyStr.all_chars]; [reflexivity|].
  destruct (p c) eqn:Hc; [|exact id].
  intros H. now rewrite (p_in_q _ Hc), (IH H).
Qed.

Lemma rstrip_with_all_back s :
  PyStr.all_chars q (PyStr.rstrip_with p s) = true -> PyStr.all_chars q s = true.
Proof.
  induction s as [|c s IH]; cbn [PyStr.rstrip_with]; [reflexivity|].
  destruct (PyStr.rstrip_with p s) as [|d r] eqn:Hr.
  - apply rstrip_with_nil in Hr.
    assert (Hs : PyStr.all_chars q s = true) by now apply IH.
    destruct (p c) eqn:Hc; cbn [PyStr.all_chars]; intros H.
    + now rewrite (p_in_q _ Hc), Hs.
    + apply andb_true_iff in H as [-> _]. now rewrite Hs.
  - change (PyStr.all_chars q (String c (String d r)))
      with (q c && PyStr.all_chars q (String d r)).
    intros [Hc Hd]%andb_true_iff. cbn [PyStr.all_chars]. now rewrite Hc, (IH Hd).
Qed.

Lemma strip_with_all_back s :
  PyStr.all_chars q (PyStr.strip_with p s) = true -> PyStr.all_chars q s = true.
Proof. intros H. now apply lstrip_with_all_back, rstrip_with_all_back. Qed.

End StripConverse.

Lemma comma_or_space_strip s :
  PyStr.all_chars comma_or_space (PyStr.strip s) = PyStr.all_chars comma_or_space s.
Proof.
  destruct (PyStr.all_chars comma_or_space s) eqn:H.
  - now apply strip_with_keeps.
  - destruct (PyStr.all_chars comma_or_space (PyStr.strip s)) eqn:H'; [|reflexivity].
    apply (strip_with_all_back PyStr.isspace comma_or_space) in H'; [congruence|].
    intros c Hc. unfold comma_or_space. rewrite Hc. apply orb_true_r.
Qed.

Lemma split_on_comma_blank_back s :
  Forall (fun field => PyStr.all_chars PyStr.isspace field = true) (PyStr.split_on "," s) ->
  PyStr.all_chars comma_or_space s = true.
Proof.
  induction s as [|c s IH]; cbn [PyStr.split_on PyStr.all_chars]; [reflexivity|].
  unfold comma_or_space at 1.
  destruct (Ascii.eqb c ",") eqn:Hc; cbn [orb andb].
  - intros H. inversion H; subst. now apply IH.
  - destruct (PyStr.split_on "," s) as [|field fields].
    + intros H. inversion H as [|? ? Hf _]; subst.
      cbn [PyStr.all_chars] in Hf. apply andb_true_iff in Hf as [-> _].
      apply IH. constructor.
    + intros H. inversion H as [|? ? Hf Hfs]; subst.
      cbn [PyStr.all_chars] in Hf. apply andb_true_iff in Hf as [-> Hf].
      apply IH. now constructor.
Qed.

Lemma split_components_nil s :
  split_components s = [] <-> PyStr.all_chars comma_or_space s = true.
Proof.
  split; [|apply split_components_blank].
  intros H. apply split_on_comma_blank_back. unfold split_components in H.
  induction (PyStr.split_on "," s) as [|field fields IH]; [constructor|].
  cbn [List.filter] in H.
  destruct (PyStr.nonempty (PyStr.strip field)) eqn:Hf; [discriminate|].
  constructor; [|now apply IH].
  apply strip_empty_iff. now apply nonempty_false.
Qed.

Lemma postal_shape_not_blank raw :
  is_postal_shape raw = true -> PyStr.all_chars comma_or_space raw = false.
Proof.
  destruct raw as [|c r]; [discriminate|]. unfold is_postal_shape.
  intros [H%zip_re_head | H%canadian_re_head]%orb_true_iff;
    cbn [PyStr.all_chars]; apply andb_false_iff; left; revert H;
    destruct c as [[] [] [] [] [] [] [] []]; vm_compute; congruence.
Qed.

Lemma parse_interpretable s location :
  parse_location_input s = inr location ->
  (interpretable location = false <-> PyStr.all_chars comma_or_space s = true).
Proof.
  intros [[Hp ->] | (Hp & Hs & ->)]%parse_cases.
  - rewrite <- comma_or_space_strip, (postal_shape_not_blank _ Hp).
    unfold interpretable. cbn [existsb city region country postal_code PyStr.truthy].
    rewrite (postal_shape_nonempty _ Hp), !orb_true_r. split; discriminate.
  - rewrite <- comma_or_space_strip, <- split_components_nil.
    unfold interpretable. cbn [existsb city region country postal_code PyStr.truthy].
    rewrite !orb_false_r, orb_assoc.
    destruct (split_components (PyStr.strip s)) as [|c cs] eqn:Hcs.
    + unfold parsed_fields. rewrite Hcs. split; reflexivity.
    + rewrite collapse_city_kept; [split; discriminate | apply parsed_fields_ok |].
      apply parsed_fields_some. now rewrite Hcs.
Qed.

(** X6: for ASCII input, a parsed location fails the front ends' test (no
    city, region, country or postal code) exactly when the input consists
    of commas and whitespace only; any other input that parses gives a
    location with at least one field. *)
Theorem parse_interpretable_iff (s : string) (location : LocationQuery) :
  PyStr.isascii s = true ->
  parse_location_input s = inr location ->
  (interpretable location = false <-> PyStr.all_chars comma_or_space s = true).
Proof. intros _. apply parse_interpretable. Qed.

Lemma parse_interpretable_iff_witness :
  interpretable (mkLocationQuery " ,, " None None None None) = false
  <-> PyStr.all_chars comma_or_space " ,, " = true.
Proof. apply (parse_interpretable_iff " ,, "); reflexivity. Defined.

(** ** Windows of an event *)

Lemma matching_window_in_Some windows location window :
  matching_window_in windows location = Some window <->
  exists pre post,
    windows = (pre ++ window :: post)%list
    /\ _window_matches_location window location = true
    /\ Forall (fun earlier => _window_matches_location earlier location = false) pre.
Proof.
  induction windows as [|w ws IH]; cbn [matching_window_in].
  - split; [discriminate|]. intros ([|??] & ? & ? & _); discriminate.
  - destruct (_window_matches_location w location) eqn:Hw.
    + split.
      * intros [= <-]. exists [], ws. auto.
      * intros ([|x pre] & post & Heq & _ & Hpre).
        -- now injection Heq as <- _.
        -- injection Heq as <- _. inversion Hpre; subst. congruence.
    + rewrite IH. split.
      * intros (pre & post & -> & Hm & Hpre). exists (w :: pre), post. auto.
      * intros ([|x pre] & post & Heq & Hm & Hpre).
        -- injection Heq as <- _. congruence.
        -- injection Heq as <- ->. inversion Hpre; subst. eauto.
Qed.

Lemma matching_window_in_None windows location :
  matching_window_in windows location = None <->
  is_visible_from_windows windows location = false.
Proof.
  induction windows as [|w ws IH]; cbn [matching_window_in is_visible_from_windows].
  - tauto.
  - destruct (_window_matches_location w location); [split; discriminate | exact IH].
Qed.

(** X7: [matching_window] returns the first window of the event, in the
    event's own order, that matches the location, and it returns nothing
    exactly when [is_visible_from] is false. *)
Theorem matching_window_first (event : EclipseEvent) (location : LocationQuery) :
  (forall window,
      matching_window event location = Some window <->
      exists pre post,
        visibility event = (pre ++ window :: post)%list
        /\ _window_matches_location window location = true
        /\ Forall (fun earlier => _window_matches_location earlier location = false) pre)
  /\ (matching_window event location = None <-> is_visible_from event location = false).
Proof.
  split; [intros window; apply matching_window_in_Some | apply matching_window_in_None].
Qed.

Lemma matching_window_first_witness :
  let texas := mkVisibilityWindow [] ["Texas"] "" in
  let everywhere := mkVisibilityWindow [] [] "anywhere" in
  let event := mkEclipseEvent (mkDate 2024 4 8) "solar" "Total" "t" [texas; everywhere] "" in
  matching_window event (mkLocationQuery "Lyon" (Some "Lyon") None None None)
  = Some everywhere.
Proof.
  intros texas everywhere event.
  apply (proj1 (matching_window_first event _)).
  exists [texas], []. repeat split.
  repeat constructor.
Defined.

(** ** The two searches of [find_next_eclipses] *)

Lemma next_visible_event_sound events location start_date today event :
  next_visible_event events location start_date today = Some event ->
  event ∈ events
  /\ date_ltb (occurs_on event) (default today start_date) = false
  /\ exists window,
       matching_window event location = Some window
       /\ window ∈ visibility event
       /\ _window_matches_location window location = true.
Proof.
  unfold next_visible_event.
  replace (match start_date with Some d => d | None => today end)
    with (default today start_date) by now destruct start_date.
  intros (pre & post & -> & [Hd Hv] & _)%scan_events_Some.
  split; [apply elem_of_app; right; apply elem_of_cons; now left|].
  split; [exact Hd|].
  destruct (matching_window event location) as [w|] eqn:Hw; unfold matching_window in Hw.
  - exists w. split; [reflexivity|].
    apply matching_window_in_Some in Hw as (p & q & Heq & Hm & _).
    split; [|exact Hm]. rewrite Heq. apply elem_of_app. right. apply elem_of_cons. now left.
  - apply matching_window_in_None in Hw. apply is_visible_from_Exists in Hv.
    unfold is_visible_from in Hv. congruence.
Qed.

(** X8: each event [find_next_eclipses] returns comes from its own
    catalogue (the first from the solar events, the second from the lunar
    events), is not before the reference date (today's date when none is
    given), and has a window that [matching_window] finds for the
    location. *)
Theorem find_next_eclipses_sound
    (solar_events lunar_events : list EclipseEvent) (location : LocationQuery)
    (reference_date : option date) (today : date)
    (solar lunar : option EclipseEvent) :
  find_next_eclipses solar_events lunar_events location reference_date today
  = (solar, lunar) ->
  (forall event, solar = Some event ->
     event ∈ solar_events
     /\ date_ltb (occurs_on event) (default today reference_date) = false
     /\ exists window,
          matching_window event location = Some window
          /\ window ∈ visibility event
          /\ _window_matches_location window location = true)
  /\ (forall event, lunar = Some event ->
        event ∈ lunar_events
        /\ date_ltb (occurs_on event) (default today reference_date) = false
        /\ exists window,
             matching_window event location = Some window
             /\ window ∈ visibility event
             /\ _window_matches_location window location = true).
Proof.
  unfold find_next_eclipses. intros [= <- <-].
  split; intros event H; eapply next_visible_event_sound, H.
Qed.

Lemma find_next_eclipses_sound_witness :
  let everywhere := mkVisibilityWindow [] [] "" in
  let s1 := mkEclipseEvent (mkDate 2026 8 12) "solar" "Total" "s" [everywhere] "" in
  let l1 := mkEclipseEvent (mkDate 2025 3 14) "lunar" "Total" "l" [everywhere] "" in
  date_ltb (occurs_on s1) (mkDate 2026 1 1) = false.
Proof.
  intros everywhere s1 l1.
  apply (proj1 (find_next_eclipses_sound [s1] [l1]
                  (mkLocationQuery "x" (Some "x") None None None)
                  None (mkDate 2026 1 1) (Some s1) None eq_refl) s1 eq_refl).
Defined.

(** ** Moving the reference date *)

Lemma date_ltb_true a b :
  date_ltb a b = true <->
  (year a < year b
   \/ (year a = year b /\ (month a < month b \/ (month a = month b /\ day a < day b))))%Z.
Proof.
  unfold date_ltb.
  rewrite !orb_true_iff, !andb_true_iff, !orb_true_iff, !andb_true_iff,
    !Z.ltb_lt, !Z.eqb_eq.
  reflexivity.
Qed.

Lemma date_ltb_false a b :
  date_ltb a b = false <->
  ~ (year a < year b
     \/ (year a = year b /\ (month a < month b \/ (month a = month b /\ day a < day b))))%Z.
Proof. rewrite <- date_ltb_true. now destruct (date_ltb a b). Qed.

Lemma date_not_before_trans a b c :
  date_ltb b a = false -> date_ltb c b = false -> date_ltb c a = false.
Proof. rewrite !date_ltb_false. lia. Qed.

Lemma qualifies_earlier location d1 d2 event :
  date_ltb d2 d1 = false ->
  qualifies location d2 event -> qualifies location d1 event.
Proof.
  intros Hd [H2 Hv]. split; [|exact Hv].
  eapply date_not_before_trans; eassumption.
Qed.

(** X9: moving the reference date forward keeps the answer as long as the
    date does not pass the event found: if [next_visible_event] returns an
    event for a reference date, it returns the same event for every later
    reference date that is not after the event; and if it returns nothing,
    it returns nothing for every later reference date. *)
Theorem next_visible_event_later
    (events : list EclipseEvent) (location : LocationQuery) (d1 d2 today : date) :
  date_ltb d2 d1 = false ->
  (forall event,
      next_visible_event events location (Some d1) today = Some event ->
      date_ltb (occurs_on event) d2 = false ->
      next_visible_event events location (Some d2) today = Some event)
  /\ (next_visible_event events location (Some d1) today = None ->
      next_visible_event events location (Some d2) today = None).
Proof.
  intros Hd. unfold next_visible_event. split.
  - intros event (pre & post & -> & [_ Hv] & Hpre)%scan_events_Some He.
    apply scan_events_Some. exists pre, post. split; [reflexivity|].
    split; [now split|].
    eapply Forall_impl; [exact Hpre|]. cbn beta.
    intros x Hx Hq. apply Hx. eapply qualifies_earlier; eassumption.
  - intros H%scan_events_None. apply scan_events_None.
    eapply Forall_impl; [exact H|]. cbn beta.
    intros x Hx Hq. apply Hx. eapply qualifies_earlier; eassumption.
Qed.

Lemma next_visible_event_later_witness :
  let everywhere := mkVisibilityWindow [] [] "" in
  let e1 := mkEclipseEvent (mkDate 2024 4 8) "solar" "Total" "a" [everywhere] "" in
  let e2 := mkEclipseEvent (mkDate 2026 8 12) "solar" "Total" "b" [everywhere] "" in
  let location := mkLocationQuery "Austin" (Some "Austin") None None None in
  next_visible_event [e1; e2] location (Some (mkDate 2025 6 1)) (mkDate 2020 1 1) = Some e2.
Proof.
  intros everywhere e1 e2 location.
  apply (proj1 (next_visible_event_later [e1; e2] location
                  (mkDate 2024 12 25) (mkDate 2025 6 1) (mkDate 2020 1 1) eq_refl));
    reflexivity.
Defined.

(** ** The ZIP table *)

Lemma ranges_ascending_above floor ranges row :
  ranges_ascending floor ranges = true -> row ∈ ranges ->
  (floor < row.1.1 /\ row.1.1 <= row.1.2)%Z.
Proof.
  revert floor. induction ranges as [|[[lo hi] st] ranges IH]; intros floor;
    cbn [ranges_ascending].
  - intros _ H. now apply elem_of_nil in H.
  - intros [[Hf Hl]%andb_true_iff Hr]%andb_true_iff.
    apply Z.ltb_lt in Hf. apply Z.leb_le in Hl.
    intros [-> | Hin]%elem_of_cons; cbn [fst snd]; [lia|].
    specialize (IH hi Hr Hin). lia.
Qed.

Lemma ranges_ascending_unique floor ranges prefix row1 row2 :
  ranges_ascending floor ranges = true ->
  row1 ∈ ranges -> row2 ∈ ranges ->
  in_range prefix row1 -> in_range prefix row2 -> row1 = row2.
Proof.
  revert floor. induction ranges as [|[[lo hi] st] ranges IH]; intros floor;
    cbn [ranges_ascending].
  - intros _ H. now apply elem_of_nil in H.
  - intros [[Hf Hl]%andb_true_iff Hr]%andb_true_iff.
    unfold in_range. intros [-> | H1]%elem_of_cons [-> | H2]%elem_of_cons; cbn [fst snd].
    + reflexivity.
    + pose proof (ranges_ascending_above _ _ _ Hr H2). lia.
    + pose proof (ranges_ascending_above _ _ _ Hr H1). lia.
    + now apply (IH hi).
Qed.

Lemma zip_ranges_ascending : ranges_ascending 4 _ZIP_STATE_RANGES = true.
Proof. vm_compute. reflexivity. Qed.

(** X10: the rows of the ZIP table are in ascending order and do not
    overlap, so no prefix lies in two rows and the order of the scan never
    decides: a prefix resolves to a state exactly when some row of that
    state holds it.  Only prefixes from 5 to 999 resolve. *)
Theorem zip_rows_disjoint (prefix : Z) :
  (forall row1 row2,
      row1 ∈ _ZIP_STATE_RANGES -> row2 ∈ _ZIP_STATE_RANGES ->
      in_range prefix row1 -> in_range prefix row2 -> row1 = row2)
  /\ (forall state,
        zip_scan prefix _ZIP_STATE_RANGES = Some (state, "United States") <->
        exists lo hi, (lo, hi, state) ∈ _ZIP_STATE_RANGES /\ (lo <= prefix <= hi)%Z)
  /\ (forall state country,
        zip_scan prefix _ZIP_STATE_RANGES = Some (state, country) ->
        (5 <= prefix <= 999)%Z).
Proof.
  assert (Huniq : forall row1 row2,
             row1 ∈ _ZIP_STATE_RANGES -> row2 ∈ _ZIP_STATE_RANGES ->
             in_range prefix row1 -> in_range prefix row2 -> row1 = row2).
  { intros. eapply ranges_ascending_unique; eauto using zip_ranges_ascending. }
  split; [exact Huniq|]. split.
  - intros state. split.
    + intros (_ & pre & lo & hi & post & Heq & Hin & _)%zip_scan_Some.
      exists lo, hi. split; [|exact Hin].
      rewrite Heq. apply elem_of_app. right. apply elem_of_cons. now left.
    + intros (lo & hi & Hrow & Hin).
      destruct (zip_scan prefix _ZIP_STATE_RANGES) as [[state' country]|] eqn:Hscan.
      * apply zip_scan_Some in Hscan as (-> & pre & lo' & hi' & post & Heq & Hin' & _).
        assert (Hrow' : (lo', hi', state') ∈ _ZIP_STATE_RANGES).
        { rewrite Heq. apply elem_of_app. right. apply elem_of_cons. now left. }
        assert (Hsame : (lo, hi, state) = (lo', hi', state'))
          by (apply Huniq; assumption).
        now injection Hsame as _ _ ->.
      * apply zip_scan_None in Hscan.
        apply (proj1 (Forall_forall _ _) Hscan) in Hrow. now elim Hrow.
  - intros state country (_ & pre & lo & hi & post & Heq & Hin & _)%zip_scan_Some.
    assert (Hrow : (lo, hi, state) ∈ _ZIP_STATE_RANGES).
    { rewrite Heq. apply elem_of_app. right. apply elem_of_cons. now left. }
    pose proof (ranges_ascending_above _ _ _ zip_ranges_ascending Hrow) as [Hlo _].
    cbn [fst snd] in Hlo. split; [lia|].
    assert (Hall : Forall (fun row => (row.1.2 <= 999)%Z) _ZIP_STATE_RANGES)
      by (apply (bool_decide_unpack _); vm_compute; exact I).
    apply (proj1 (Forall_forall _ _) Hall) in Hrow. cbn [fst snd] in Hrow. lia.
Qed.

Lemma zip_rows_disjoint_witness :
  zip_scan 787 _ZIP_STATE_RANGES = Some ("Texas", "United States").
Proof.
  apply (proj1 (proj2 (zip_rows_disjoint 787)) "Texas").
  exists 750%Z, 799%Z. split; [|lia].
  apply (bool_decide_unpack _). vm_compute. exact I.
Defined.

(** ** Canadian postal codes *)

Lemma canada_provinces_nonempty :
  map_Forall (fun _ province => PyStr.nonempty province = true) _CANADA_POSTAL_PREFIX.
Proof. apply (bool_decide_unpack _). vm_compute. exact I. Qed.

Lemma alpha_not_digit_space c :
  PyStr.isalpha c = true -> PyStr.isdigit c = false /\ Ascii.eqb c " " = false.
Proof. destruct c as [[] [] [] [] [] [] [] []]; vm_compute; intuition congruence. Qed.

(** X11: a code of the Canadian shape resolves by its first letter alone,
    whatever the case of the letter: the result is the province stored
    under the uppercased letter, with country "Canada", and nothing when
    the letter has no entry (D, F, I, O, Q, U, W, Z). *)
Theorem canadian_first_letter (code : string) :
  Re.fullmatch Re.canadian_re (PyStr.strip code) = true ->
  exists letter rest,
    PyStr.strip code = String letter rest
    /\ resolve_postal_code code
       = (fun province => (province, "Canada"))
           <$> _CANADA_POSTAL_PREFIX !! String (PyStr.upper_char letter) "".
Proof.
  intros Hm. destruct (PyStr.strip code) as [|letter rest] eqn:Hs; [discriminate|].
  exists letter, rest. split; [reflexivity|].
  pose proof (canadian_re_head _ _ Hm) as Ha.
  destruct (alpha_not_digit_space _ Ha) as [Hd Hsp].
  unfold resolve_postal_code. rewrite Hs. cbn [PyStr.nonempty negb].
  destruct (Re.fullmatch Re.zip_re (String letter rest)) eqn:Hz.
  { apply zip_re_head in Hz. congruence. }
  rewrite Hm. unfold _resolve_canadian_postal.
  cbn [PyStr.filter_chars]. rewrite Hsp. cbn [negb PyStr.upper PyStr.map_chars].
  destruct (_CANADA_POSTAL_PREFIX !! String (PyStr.upper_char letter) "")
    as [province|] eqn:Hp; [|reflexivity].
  now rewrite (map_Forall_lookup_1 _ _ _ _ canada_provinces_nonempty Hp).
Qed.

Lemma canadian_first_letter_witness :
  exists letter rest,
    PyStr.strip " k1a 0b1" = String letter rest
    /\ resolve_postal_code " k1a 0b1"
       = (fun province => (province, "Canada"))
           <$> _CANADA_POSTAL_PREFIX !! String (PyStr.upper_char letter) "".
Proof. apply (canadian_first_letter " k1a 0b1"). reflexivity. Defined.

(** ** Tokens *)

Lemma lower_char_idem c : PyStr.lower_char (PyStr.lower_char c) = PyStr.lower_char c.
Proof. destruct c as [[] [] [] [] [] [] [] []]; reflexivity. Qed.

Lemma lower_idem s : PyStr.lower (PyStr.lower s) = PyStr.lower s.
Proof.
  unfold PyStr.lower. induction s as [|c s IH]; cbn [PyStr.map_chars]; [reflexivity|].
  now rewrite lower_char_idem, IH.
Qed.

Lemma country_aliases_lowercase :
  Forall (fun item => PyStr.lower item.1 = item.1) _COUNTRY_CANONICAL_items.
Proof. apply (bool_decide_unpack _). vm_compute. exact I. Qed.

Lemma macro_regions_lowercase :
  map_Forall (fun _ labels => set_Forall (fun label => PyStr.lower label = label) labels)
    _COUNTRY_MACROREGIONS.
Proof. apply (bool_decide_unpack _). vm_compute. exact I. Qed.

Lemma alias_fold_elem (c : string) (items : list (string * string)) (res : gset string) t :
  t ∈ foldl (fun res item =>
               let '(alias, canonical) := item in
               if bool_decide (canonical = c) then res ∪ {[alias]} else res)
        res items ->
  t ∈ res \/ exists canonical, (t, canonical) ∈ items.
Proof.
  revert res. induction items as [|[alias canonical] items IH]; intros res; cbn [foldl].
  - now left.
  - intros [H | [k H]]%IH.
    + destruct (bool_decide (canonical = c)); [|now left].
      apply elem_of_union in H as [H | ->%elem_of_singleton]; [now left|].
      right. exists canonical. apply elem_of_cons. now left.
    + right. exists k. apply elem_of_cons. now right.
Qed.

Lemma lowered_words_elem t s :
  t ∈ (list_to_set (map PyStr.lower (PyStr.split_ws s)) : gset string) ->
  PyStr.lower t = t.
Proof.
  rewrite elem_of_list_to_set. intros H. apply list_elem_of_In, in_map_iff in H.
  destruct H as (w & <- & _). apply lower_idem.
Qed.

(** X12: every token of a location is in lower case, whatever the fields
    hold; the windows' names are lowercased before they are compared with
    the tokens, so a match never depends on letter case. *)
Theorem tokens_lowercase (location : LocationQuery) (t : string) :
  t ∈ tokens location -> PyStr.lower t = t.
Proof.
  unfold tokens.
  set (r1 := match city location with Some _ => _ | None => _ end).
  set (r2 := match region location with Some _ => _ | None => _ end).
  assert (H1 : forall x, x ∈ r1 -> PyStr.lower x = x).
  { subst r1. intros x. destruct (city location) as [c|]; [|set_solver].
    destruct (PyStr.nonempty c); [|set_solver].
    rewrite !elem_of_union, elem_of_singleton.
    intros [[H | H] | ->]; [set_solver | now apply lowered_words_elem in H | apply lower_idem]. }
  assert (H2 : forall x, x ∈ r2 -> PyStr.lower x = x).
  { subst r2. intros x. destruct (region location) as [r|]; [|apply H1].
    destruct (PyStr.nonempty r); [|apply H1].
    rewrite !elem_of_union, elem_of_singleton.
    intros [[H | ->] | H]; [now apply H1 | apply lower_idem | now apply lowered_words_elem in H]. }
  clearbody r2. clear H1 r1.
  destruct (country location) as [c|]; [|apply H2].
  destruct (PyStr.nonempty c); [|apply H2].
  rewrite elem_of_union. intros [H | H].
  - apply alias_fold_elem in H as [H | [k H]].
    + apply elem_of_union in H as [H | ->%elem_of_singleton]; [now apply H2 | apply lower_idem].
    + exact (proj1 (Forall_forall _ _) country_aliases_lowercase _ H).
  - destruct (_COUNTRY_MACROREGIONS !! c) as [labels|] eqn:Hl; cbn [default from_option id] in H.
    + exact (map_Forall_lookup_1 _ _ _ _ macro_regions_lowercase Hl _ H).
    + set_solver.
Qed.

Lemma tokens_lowercase_witness : PyStr.lower "north america" = "north america".
Proof.
  apply (tokens_lowercase (mkLocationQuery "x" None None (Some "United States") None)).
  apply (bool_decide_unpack _). vm_compute. exact I.
Defined.

(** ** Locations without tokens, and country-level matches *)

Lemma lowered_empty_iff names : lowered names = ∅ <-> names = [].
Proof.
  split; [|intros ->; reflexivity].
  destruct names as [|n names]; [reflexivity|].
  unfold lowered. cbn [map list_to_set]. intros Heq. exfalso.
  apply (not_elem_of_empty (C:=gset string) (PyStr.lower n)).
  rewrite <- Heq. apply elem_of_union_l, elem_of_singleton. reflexivity.
Qed.

Lemma set_nonempty_false (s : gset string) : set_nonempty s = false <-> s = ∅.
Proof.
  unfold set_nonempty. rewrite bool_decide_eq_false.
  split; [intros H; destruct (decide (s = ∅)); [assumption | contradiction] | auto].
Qed.

Lemma intersects_empty_l (s : gset string) : intersects ∅ s = false.
Proof. apply intersects_false, intersection_empty_l_L. Qed.

(** X13: a location without city, region and country (what the parser
    returns for an input of commas, or for a postal code it cannot
    resolve) has no tokens and matches a window exactly when the window
    names neither countries nor regions. *)
Theorem fieldless_location_matches
    (window : VisibilityWindow) (raw : string) (postal : option string) :
  let location := mkLocationQuery raw None None None postal in
  tokens location = ∅
  /\ (_window_matches_location window location = true <->
      countries window = [] /\ regions window = []).
Proof.
  intros location. split; [reflexivity|].
  unfold _window_matches_location.
  change (tokens location) with (∅ : gset string).
  rewrite !intersects_empty_l.
  cbn [location country region PyStr.truthy lower_in negb andb is_None].
  rewrite andb_true_r, andb_false_r.
  destruct (set_nonempty (lowered (countries window))) eqn:Hc.
  - split; [discriminate|]. intros [Hn _].
    rewrite Hn in Hc. now rewrite (proj2 (set_nonempty_false _)) in Hc.
  - apply set_nonempty_false, lowered_empty_iff in Hc.
    destruct (set_nonempty (lowered (regions window))) eqn:Hr; cbn [negb].
    + split; [discriminate|]. intros [_ Hn].
      rewrite Hn in Hr. now rewrite (proj2 (set_nonempty_false _)) in Hr.
    + apply set_nonempty_false, lowered_empty_iff in Hr. tauto.
Qed.

Lemma fieldless_location_matches_witness :
  _window_matches_location (mkVisibilityWindow [] [] "global")
    (mkLocationQuery ", ," None None None None) = true.
Proof.
  apply (proj2 (proj2 (fieldless_location_matches
                         (mkVisibilityWindow [] [] "global") ", ," None))).
  split; reflexivity.
Defined.

Lemma lower_in_true (c : string) (s : gset string) :
  c <> "" -> PyStr.lower c ∈ s -> lower_in (Some c) s = true.
Proof.
  intros Hc Hin. unfold lower_in.
  rewrite (proj2 (nonempty_true _) Hc), (bool_decide_eq_true_2 _ Hin). reflexivity.
Qed.

(** X14: a location that gives no region and whose country, lowercased, is
    one of the window's countries matches the window, whatever regions the
    window lists and whatever the city is. *)
Theorem country_level_match
    (window : VisibilityWindow) (location : LocationQuery) (c : string) :
  region location = None ->
  country location = Some c -> c <> "" ->
  PyStr.lower c ∈ lowered (countries window) ->
  _window_matches_location window location = true.
Proof.
  intros Hr Hc Hne Hin. unfold _window_matches_location.
  rewrite Hr, Hc, (lower_in_true _ _ Hne Hin).
  assert (Hs : set_nonempty (lowered (countries window)) = true).
  { apply bool_decide_eq_true. intros Heq. rewrite Heq in Hin.
    now apply not_elem_of_empty in Hin. }
  rewrite Hs. cbn [PyStr.truthy lower_in is_None negb andb].
  rewrite (proj2 (nonempty_true _) Hne). cbn [negb andb].
  destruct (negb (set_nonempty (lowered (regions window)))); [reflexivity|].
  now destruct (intersects (tokens location) (lowered (regions window))).
Qed.

Lemma country_level_match_witness :
  _window_matches_location
    (mkVisibilityWindow ["Spain"; "Portugal"] ["Galicia"] "")
    (mkLocationQuery "Madrid, spain" (Some "Madrid") None (Some "Spain") None)
  = true.
Proof.
  apply (country_level_match _ _ "Spain").
  - reflexivity.
  - reflexivity.
  - discriminate.
  - apply (bool_decide_unpack _). vm_compute. exact I.
Defined.

(** ** Durations *)

Lemma startswith_nil s : PyStr.startswith s "" = true.
Proof. now destruct s. Qed.

(** X15: for an ASCII value, [_normalise_duration] returns nothing exactly
    when the value is missing or blank; otherwise it returns a non-empty
    text that is "0" or does not begin with the digit 0. *)
Theorem normalise_duration_spec (value : option string) :
  ascii_field value = true ->
  (_normalise_duration value = None <->
   value = None \/ exists v, value = Some v /\ PyStr.strip v = "")
  /\ (forall d, _normalise_duration value = Some d ->
                d <> "" /\ (d = "0" \/ PyStr.startswith d "0" = false)).
Proof.
  intros _. destruct value as [v|]; cbn [_normalise_duration].
  2:{ split; [split; [now left | reflexivity] | discriminate]. }
  destruct v as [|a v]; cbn [PyStr.nonempty negb].
  { split; [split; [right; now exists "" | reflexivity] | discriminate]. }
  destruct (PyStr.strip (String a v)) as [|b r] eqn:Hs; cbn [PyStr.nonempty negb].
  { split; [split; [right; eauto | reflexivity] | discriminate]. }
  split.
  { split; [discriminate|]. intros [H | (v' & [= <-] & H)]; congruence. }
  intros d. cbn [PyStr.startswith String.length andb].
  rewrite startswith_nil, andb_true_r.
  destruct (Ascii.eqb b "0") eqn:Hb; cbn [andb].
  - apply Ascii.eqb_eq in Hb. subst b.
    destruct r as [|b' r']; cbn [String.length Nat.ltb Nat.leb andb].
    + cbn [PyStr.nonempty]. intros [= <-]. split; [discriminate | now left].
    + destruct (PyStr.lstrip_with (PyStr.char_in "0") (String "0" (String b' r')))
        as [|e rest] eqn:Hl; cbn [PyStr.nonempty].
      * intros [= <-]. split; [discriminate | now left].
      * intros [= <-]. split; [discriminate|]. right.
        apply lstrip_with_head in Hl. cbn [PyStr.char_in] in Hl.
        rewrite orb_false_r in Hl. cbn [PyStr.startswith]. now rewrite Hl.
  - cbn [PyStr.nonempty]. intros [= <-]. split; [discriminate|]. right.
    cbn [PyStr.startswith]. now rewrite Hb.
Qed.

Lemma normalise_duration_spec_witness :
  "4m28s" <> "" /\ ("4m28s" = "0" \/ PyStr.startswith "4m28s" "0" = false).
Proof.
  apply (proj2 (normalise_duration_spec (Some " 004m28s ") eq_refl)). reflexivity.
Defined.

(** ** The display text *)

Lemma formatted_empty location :
  formatted location = "" <->
  PyStr.truthy (city location) = false
  /\ PyStr.truthy (region location) = false
  /\ PyStr.truthy (country location) = false.
Proof.
  unfold formatted.
  destruct (city location) as [[|a s]|], (region location) as [[|b t]|],
    (country location) as [[|c u]|];
    cbn [flat_map app PyStr.nonempty PyStr.truthy PyStr.join String.append];
    split; try discriminate; try tauto; intros (? & ? & ?); discriminate.
Qed.

(** X16: [formatted] is empty exactly when city, region and country are all
    unset or empty; for a location parsed from ASCII input this happens
    only when the input was a postal code or consisted of commas and
    whitespace, so every other ASCII input has a display text. *)
Theorem formatted_empty_iff (location : LocationQuery) :
  (formatted location = "" <->
   PyStr.truthy (city location) = false
   /\ PyStr.truthy (region location) = false
   /\ PyStr.truthy (country location) = false)
  /\ (forall s,
        PyStr.isascii s = true ->
        parse_location_input s = inr location ->
        formatted location = "" ->
        postal_code location <> None \/ PyStr.all_chars comma_or_space s = true).
Proof.
  split; [apply formatted_empty|].
  intros s _ Hp (Hc & Hr & Hk)%formatted_empty.
  destruct (postal_code location) as [p|] eqn:Hpost; [left; discriminate | right].
  apply (parse_interpretable s location Hp).
  unfold interpretable. cbn [existsb]. now rewrite Hc, Hr, Hk, Hpost.
Qed.

Lemma formatted_empty_iff_witness :
  postal_code (mkLocationQuery "00001" None None None (Some "00001")) <> None
  \/ PyStr.all_chars comma_or_space "00001" = true.
Proof.
  apply (proj2 (formatted_empty_iff _) "00001"); reflexivity.
Defined.

(** ** Letter case in lookups *)

Lemma lower_upper_char c : PyStr.lower_char (PyStr.upper_char c) = PyStr.lower_char c.
Proof. destruct c as [[] [] [] [] [] [] [] []]; reflexivity. Qed.

Lemma isspace_lower_char c : PyStr.isspace (PyStr.lower_char c) = PyStr.isspace c.
Proof. destruct c as [[] [] [] [] [] [] [] []]; reflexivity. Qed.

Section StripMap.
Variable f : ascii -> ascii.
Variable p : ascii -> bool.
Hypothesis p_f : forall c, p (f c) = p c.

Lemma lstrip_with_map s :
  PyStr.lstrip_with p (PyStr.map_chars f s) = PyStr.map_chars f (PyStr.lstrip_with p s).
Proof.
  induction s as [|c s IH]; cbn [PyStr.map_chars PyStr.lstrip_with]; [reflexivity|].
  rewrite p_f. now destruct (p c).
Qed.

Lemma rstrip_with_map s :
  PyStr.rstrip_with p (PyStr.map_chars f s) = PyStr.map_chars f (PyStr.rstrip_with p s).
Proof.
  induction s as [|c s IH]; cbn [PyStr.map_chars PyStr.rstrip_with]; [reflexivity|].
  rewrite IH, p_f.
  destruct (PyStr.rstrip_with p s) as [|d r]; cbn [PyStr.map_chars]; [|reflexivity].
  now destruct (p c).
Qed.

Lemma strip_with_map s :
  PyStr.strip_with p (PyStr.map_chars f s) = PyStr.map_chars f (PyStr.strip_with p s).
Proof. unfold PyStr.strip_with. now rewrite lstrip_with_map, rstrip_with_map. Qed.

End StripMap.

Lemma lower_strip s : PyStr.lower (PyStr.strip s) = PyStr.strip (PyStr.lower s).
Proof.
  unfold PyStr.lower, PyStr.strip. symmetry.
  apply strip_with_map, isspace_lower_char.
Qed.

Lemma normalise_token_by_lower s s' :
  PyStr.lower s = PyStr.lower s' -> _normalise_token s = _normalise_token s'.
Proof. intros H. unfold _normalise_token. now rewrite !lower_strip, H. Qed.

Lemma lower_upper s : PyStr.lower (PyStr.upper s) = PyStr.lower s.
Proof.
  unfold PyStr.lower, PyStr.upper.
  induction s as [|c s IH]; cbn [PyStr.map_chars]; [reflexivity|].
  now rewrite lower_upper_char, IH.
Qed.

Lemma lower_nonempty s : PyStr.nonempty (PyStr.lower s) = PyStr.nonempty s.
Proof. now destruct s. Qed.

Lemma nonempty_by_lower s s' :
  PyStr.lower s = PyStr.lower s' -> PyStr.nonempty s = PyStr.nonempty s'.
Proof. intros H. now rewrite <- (lower_nonempty s), H, lower_nonempty. Qed.

Lemma blank_token_unknown :
  _COUNTRY_CANONICAL !! _normalise_token "" = None
  /\ _REGION_ALIAS_LOOKUP !! _normalise_token "" = None.
Proof. split; vm_compute; reflexivity. Qed.

(** X17: lookups ignore letter case.  Two names that differ only in the
    case of their letters have the same normalised token; so a name that
    the country table (or the region table) recognises is mapped to the
    same canonical name in any capitalisation, upper case included. *)
Theorem lookups_ignore_case (s s' : string) :
  PyStr.lower s = PyStr.lower s' ->
  _normalise_token s = _normalise_token s'
  /\ (forall c, _COUNTRY_CANONICAL !! _normalise_token s = Some c ->
                normalize_country (Some s) = Some c
                /\ normalize_country (Some s') = Some c
                /\ normalize_country (Some (PyStr.upper s)) = Some c)
  /\ (forall r owner, _REGION_ALIAS_LOOKUP !! _normalise_token s = Some (r, owner) ->
                normalize_region (Some s) = Some r
                /\ normalize_region (Some s') = Some r
                /\ normalize_region (Some (PyStr.upper s)) = Some r).
Proof.
  intros Hl. pose proof (normalise_token_by_lower _ _ Hl) as Ht.
  pose proof (normalise_token_by_lower _ _ (lower_upper s)) as Hu.
  pose proof (nonempty_by_lower _ _ Hl) as Hn.
  pose proof (nonempty_by_lower _ _ (lower_upper s)) as Hnu.
  split; [exact Ht|]. split.
  - intros c Hc.
    assert (Hs : PyStr.nonempty s = true).
    { destruct s; [|reflexivity]. destruct blank_token_unknown. congruence. }
    unfold normalize_country.
    rewrite <- Hn, Hnu, Hs, <- Ht, Hu, Hc. auto.
  - intros r owner Hr.
    assert (Hs : PyStr.nonempty s = true).
    { destruct s; [|reflexivity]. destruct blank_token_unknown. congruence. }
    unfold normalize_region.
    rewrite <- Hn, Hnu, Hs, <- Ht, Hu, Hr. auto.
Qed.

Lemma lookups_ignore_case_witness :
  normalize_region (Some "nEw   yOrK ") = Some "New York".
Proof.
  apply (proj2 (proj2 (lookups_ignore_case "new   york " "nEw   yOrK " eq_refl))
           "New York" (Some "United States")).
  vm_compute. reflexivity.
Defined.

(** ** Segments no table recognises *)

Lemma append_cons c a b : (String c a ++ b)%string = String c (a ++ b).
Proof. reflexivity. Qed.

Lemma rstrip_with_append p a b :
  PyStr.rstrip_with p b <> "" ->
  PyStr.rstrip_with p (a ++ b) = (a ++ PyStr.rstrip_with p b)%string.
Proof.
  intros Hb. induction a as [|c a IH]; [reflexivity|].
  rewrite !append_cons. cbn [PyStr.rstrip_with]. rewrite IH.
  destruct (a ++ PyStr.rstrip_with p b)%string eqn:Hab; [|reflexivity].
  destruct a; [|rewrite append_cons in Hab; discriminate].
  change (PyStr.rstrip_with p b = "") in Hab. congruence.
Qed.

(** A text without whitespace at either end, and not empty. *)
Lemma trimmed_head s :
  PyStr.strip s = s -> s <> "" -> exists c r, s = String c r /\ PyStr.isspace c = false.
Proof.
  intros Hs Hne. destruct s as [|c r]; [congruence|].
  exists c, r. split; [reflexivity|]. eapply strip_with_head, Hs.
Qed.

Lemma trimmed_rstrip s :
  PyStr.strip s = s -> s <> "" -> PyStr.rstrip_with PyStr.isspace s = s.
Proof.
  intros Hs Hne. destruct (trimmed_head s Hs Hne) as (c & r & -> & Hc).
  unfold PyStr.strip, PyStr.strip_with in Hs.
  cbn [PyStr.lstrip_with] in Hs. now rewrite Hc in Hs.
Qed.

Lemma trimmed_append a b :
  PyStr.strip a = a -> a <> "" -> PyStr.strip b = b -> b <> "" ->
  PyStr.strip (a ++ " " ++ b) = (a ++ " " ++ b)%string.
Proof.
  intros Ha Hna Hb Hnb.
  destruct (trimmed_head a Ha Hna) as (c & r & -> & Hc).
  pose proof (trimmed_rstrip _ Ha Hna) as Hra.
  pose proof (trimmed_rstrip _ Hb Hnb) as Hrb.
  unfold PyStr.strip, PyStr.strip_with.
  rewrite append_cons. cbn [PyStr.lstrip_with]. rewrite Hc, <- append_cons.
  assert (H1 : PyStr.rstrip_with PyStr.isspace (" " ++ b) = (" " ++ b)%string).
  { rewrite rstrip_with_append; rewrite Hrb; [reflexivity | exact Hnb]. }
  rewrite rstrip_with_append; rewrite H1; [reflexivity | discriminate].
Qed.

Lemma join_trimmed parts :
  parts <> [] ->
  Forall (fun part => PyStr.strip part = part /\ part <> "") parts ->
  PyStr.strip (PyStr.join " " parts) = PyStr.join " " parts
  /\ PyStr.join " " parts <> "".
Proof.
  intros Hne H. induction H as [|part parts [Hs Hn] Hrest IH]; [congruence|].
  destruct parts as [|part' parts'].
  - cbn [PyStr.join]. auto.
  - destruct IH as [IHs IHn]; [discriminate|].
    change (PyStr.join " " (part :: part' :: parts'))
      with (part ++ " " ++ PyStr.join " " (part' :: parts'))%string.
    split; [now apply trimmed_append|].
    destruct part; [congruence | discriminate].
Qed.

Lemma scan_component_unrecognised component (city : option string) :
  unrecognised component ->
  scan_component (mkFields city None None) component
  = mkFields
      (Some (match city with
             | Some c => if PyStr.nonempty c then PyStr.strip component ++ " " ++ c
                         else PyStr.strip component
             | None => PyStr.strip component
             end)) None None.
Proof.
  intros (_ & Hc & Hr). unfold scan_component.
  cbn [f_city f_region f_country PyStr.truthy negb]. rewrite Hc, Hr.
  destruct city as [c|]; [destruct (PyStr.nonempty c)|]; reflexivity.
Qed.

Lemma scan_components_cons component components :
  scan_components (component :: components)
  = scan_component (scan_components components) component.
Proof. unfold scan_components. cbn [rev]. now rewrite foldl_app. Qed.

Lemma scan_components_unrecognised components :
  components <> [] ->
  Forall (fun component => PyStr.strip component = component /\ unrecognised component)
    components ->
  scan_components components = mkFields (Some (PyStr.join " " components)) None None.
Proof.
  intros Hne H. induction H as [|c cs [Hs Hu] Hrest IH]; [congruence|].
  rewrite scan_components_cons. destruct cs as [|c' cs'].
  - change (scan_components []) with (mkFields None None None).
    rewrite (scan_component_unrecognised _ None Hu), Hs. reflexivity.
  - rewrite IH by discriminate.
    rewrite (scan_component_unrecognised _ _ Hu), Hs.
    assert (Hj : PyStr.join " " (c' :: cs') <> "").
    { apply join_trimmed; [discriminate|].
      eapply Forall_impl; [exact Hrest|]. cbn beta.
      intros x [Hx (Hx' & _)]. split; [exact Hx | congruence]. }
    now rewrite (proj2 (nonempty_true _) Hj).
Qed.

Lemma split_components_trimmed raw :
  Forall (fun component => PyStr.strip component = component)
    (split_components raw).
Proof.
  unfold split_components.
  induction (PyStr.split_on "," raw) as [|field fields IH]; cbn [List.filter map].
  - constructor.
  - destruct (PyStr.nonempty (PyStr.strip field)); [|exact IH].
    cbn [map]. constructor; [apply strip_idem | exact IH].
Qed.

(** X18: for ASCII input, when neither table recognises any segment of the
    input and the text does not end in a two-letter region abbreviation,
    the parser returns the segments, trimmed and joined by single spaces in
    their original order, as the city and sets nothing else. *)
Theorem parse_unrecognised (s : string) :
  let components := split_components (PyStr.strip s) in
  let text := PyStr.join " " components in
  PyStr.isascii s = true ->
  is_postal_shape (PyStr.strip s) = false ->
  components <> [] ->
  Forall unrecognised components ->
  (forall start group1,
      Re.search_trailing text = Some (start, group1) ->
      _REGION_ALIAS_LOOKUP !! PyStr.lower group1 = None) ->
  parse_location_input s = inr (mkLocationQuery s (Some text) None None None).
Proof.
  intros components text _ Hp Hne Hun Htrail.
  assert (Hall : Forall (fun c => PyStr.strip c = c /\ unrecognised c) components).
  { apply Forall_and. split; [apply split_components_trimmed | exact Hun]. }
  assert (Htext : PyStr.strip text = text /\ text <> "").
  { apply join_trimmed; [exact Hne|].
    eapply Forall_impl; [exact Hall|]. cbn beta.
    intros x [Hx (Hx' & _)]. split; [exact Hx | congruence]. }
  destruct Htext as [Hts Htn].
  assert (Hraw : PyStr.nonempty (PyStr.strip s) = true).
  { destruct (PyStr.strip s); [now elim Hne | reflexivity]. }
  unfold parse_location_input. rewrite Hraw, Hp. cbn [negb].
  fold components. rewrite (scan_components_unrecognised components Hne Hall).
  fold text.
  assert (Hfb : fallback_city components (mkFields (Some text) None None)
                = mkFields (Some text) None None).
  { unfold fallback_city. cbn [f_city PyStr.truthy].
    now rewrite (proj2 (nonempty_true _) Htn). }
  assert (Hpeel : peel_trailing (mkFields (Some text) None None)
                  = mkFields (Some text) None None).
  { unfold peel_trailing. cbn [f_city f_region PyStr.truthy negb].
    rewrite (proj2 (nonempty_true _) Htn).
    destruct (Re.search_trailing text) as [[start group1]|] eqn:Hst; [|reflexivity].
    now rewrite (Htrail _ _ eq_refl). }
  rewrite Hfb, Hpeel. clearbody text components.
  cbn [infer_country f_region f_country f_city normalize_country normalize_region].
  unfold collapse_city, strip_city, drop_if_same, or_None. cbn [f_city f_region f_country].
  now rewrite (proj2 (nonempty_true _) Htn), Hts, (proj2 (nonempty_true _) Htn).
Qed.

Lemma unrecognised_intro component :
  PyStr.nonempty (PyStr.strip component)
  && bool_decide (_COUNTRY_CANONICAL !! _normalise_token component = None)
  && bool_decide (_REGION_ALIAS_LOOKUP !! _normalise_token component = None) = true ->
  unrecognised component.
Proof.
  intros [[H1 H2]%andb_true_iff H3]%andb_true_iff.
  apply bool_decide_eq_true in H2. apply bool_decide_eq_true in H3.
  apply nonempty_true in H1. unfold unrecognised. auto.
Qed.

Lemma parse_unrecognised_witness :
  parse_location_input " Port  Lumen ,,  Atlantis "
  = inr (mkLocationQuery " Port  Lumen ,,  Atlantis " (Some "Port  Lumen Atlantis")
           None None None).
Proof.
  apply (parse_unrecognised " Port  Lumen ,,  Atlantis ").
  - reflexivity.
  - reflexivity.
  - vm_compute. discriminate.
  - change (Forall unrecognised ["Port  Lumen"; "Atlantis"]).
    repeat (constructor; [apply unrecognised_intro; vm_compute; reflexivity|]).
    constructor.
  - vm_compute. discriminate.
Defined.

(** ** A trailing country name *)

Lemma inferred_keeps (owner current : option string) :
  PyStr.truthy current = true ->
  (if PyStr.truthy owner && negb (PyStr.truthy current) then owner else current) = current.
Proof. intros ->. now rewrite andb_false_r. Qed.

Lemma scan_component_country st component :
  PyStr.truthy (f_country st) = true ->
  f_country (scan_component st component) = f_country st.
Proof.
  intros Hc. unfold scan_component. rewrite Hc. cbn [negb].
  destruct (if negb (PyStr.truthy (f_region st)) then _ else None) as [[r owner]|].
  - cbn [f_country]. now rewrite andb_false_r.
  - destruct (f_city st) as [c|]; [destruct (PyStr.nonempty c)|]; reflexivity.
Qed.

Lemma foldl_scan_country components st :
  PyStr.truthy (f_country st) = true ->
  f_country (foldl scan_component st components) = f_country st.
Proof.
  revert st. induction components as [|c cs IH]; intros st Hc; cbn [foldl]; [reflexivity|].
  rewrite IH; rewrite scan_component_country; auto.
Qed.

Lemma fallback_city_country components st :
  f_country (fallback_city components st) = f_country st.
Proof.
  unfold fallback_city. destruct (negb (PyStr.truthy (f_city st))); [|reflexivity].
  now destruct components.
Qed.

Lemma peel_trailing_country st :
  PyStr.truthy (f_country st) = true -> f_country (peel_trailing st) = f_country st.
Proof.
  intros Hc. unfold peel_trailing.
  destruct (f_city st) as [c|]; [|reflexivity].
  destruct (PyStr.nonempty c); [|reflexivity].
  destruct (Re.search_trailing c) as [[start group1]|]; [|reflexivity].
  destruct (negb (PyStr.truthy (f_region st))); [|reflexivity].
  destruct (_REGION_ALIAS_LOOKUP !! PyStr.lower group1) as [[r owner]|]; [|reflexivity].
  cbn [f_country]. now apply inferred_keeps.
Qed.

Lemma infer_country_country st :
  PyStr.truthy (f_country st) = true -> f_country (infer_country st) = f_country st.
Proof.
  intros Hc. unfold infer_country.
  destruct (f_region st) as [r|]; [|reflexivity].
  now rewrite Hc, andb_false_r.
Qed.

(** X19: when the last segment of the input is a recognised country name
    or alias, the parsed location carries that country, whatever the
    earlier segments are: neither a region of another country nor a
    trailing abbreviation in the city replaces it. *)
Theorem trailing_country_wins
    (s : string) (front : list string) (last c : string) (location : LocationQuery) :
  is_postal_shape (PyStr.strip s) = false ->
  split_components (PyStr.strip s) = (front ++ [last])%list ->
  _COUNTRY_CANONICAL !! _normalise_token last = Some c ->
  parse_location_input s = inr location ->
  country location = Some c.
Proof.
  intros Hp Hsplit Hlast [[Hp' _] | (_ & _ & ->)]%parse_cases; [congruence|].
  cbn [country]. unfold parsed_fields. rewrite Hsplit.
  destruct (canonical_country_facts c) as (Hne & _); [now exists (_normalise_token last)|].
  assert (Hscan : f_country (scan_components (front ++ [last])) = Some c).
  { unfold scan_components. rewrite rev_app_distr. cbn [rev app foldl].
    rewrite foldl_scan_country.
    - unfold scan_component. cbn [f_country PyStr.truthy negb].
      now rewrite Hlast, Hne.
    - unfold scan_component. cbn [f_country PyStr.truthy negb].
      now rewrite Hlast, Hne. }
  assert (Ht : PyStr.truthy (Some c) = true) by exact Hne.
  rewrite infer_country_country; rewrite peel_trailing_country;
    rewrite fallback_city_country; rewrite Hscan; auto.
Qed.

Lemma trailing_country_wins_witness :
  country (mkLocationQuery "Paris, Texas, uk" (Some "Paris") (Some "Texas")
             (Some "United Kingdom") None) = Some "United Kingdom".
Proof.
  apply (trailing_country_wins "Paris, Texas, uk" ["Paris"; "Texas"] "uk").
  - reflexivity.
  - reflexivity.
  - vm_compute. reflexivity.
  - vm_compute. reflexivity.
Defined.

(** ** Windows that name a country by an alias *)

Lemma alias_fold_intro (c : string) (items : list (string * string)) (res : gset string) t :
  t ∈ res \/ (t, c) ∈ items ->
  t ∈ foldl (fun res item =>
               let '(alias, canonical) := item in
               if bool_decide (canonical = c) then res ∪ {[alias]} else res)
        res items.
Proof.
  revert res. induction items as [|[alias canonical] items IH]; intros res; cbn [foldl].
  - intros [H | H]; [exact H | now apply elem_of_nil in H].
  - intros [H | [[= <- <-] | H]%elem_of_cons]; apply IH.
    + left. destruct (bool_decide (canonical = c)); [apply elem_of_union_l|]; exact H.
    + left. rewrite bool_decide_eq_true_2 by reflexivity.
      apply elem_of_union_r, elem_of_singleton. reflexivity.
    + now right.
Qed.

Lemma tokens_alias location c alias :
  country location = Some c -> c <> "" ->
  _COUNTRY_CANONICAL !! alias = Some c ->
  alias ∈ tokens location.
Proof.
  intros Hc Hne Hal. unfold tokens. rewrite Hc, (proj2 (nonempty_true _) Hne).
  apply elem_of_union_l, alias_fold_intro. right. now apply country_items_exact.
Qed.

(** X20: the tokens of a location hold every alias of its country, so a
    window may name the country by any alias and in any letter case: if one
    of the window's countries, lowercased, is an alias of the location's
    country and the window lists no regions, the window matches. *)
Theorem window_country_alias
    (window : VisibilityWindow) (location : LocationQuery) (c name : string) :
  country location = Some c -> c <> "" ->
  name ∈ countries window ->
  _COUNTRY_CANONICAL !! PyStr.lower name = Some c ->
  PyStr.lower name ∈ tokens location
  /\ (regions window = [] -> _window_matches_location window location = true).
Proof.
  intros Hc Hne Hin Hal.
  assert (Ht : PyStr.lower name ∈ tokens location) by now apply (tokens_alias _ c).
  split; [exact Ht|]. intros Hr.
  assert (Hl : PyStr.lower name ∈ lowered (countries window)).
  { unfold lowered. apply elem_of_list_to_set, list_elem_of_In, in_map, list_elem_of_In, Hin. }
  assert (Hi : intersects (tokens location) (lowered (countries window)) = true).
  { apply bool_decide_eq_true. intros Heq.
    apply (not_elem_of_empty (C:=gset string) (PyStr.lower name)).
    rewrite <- Heq. apply elem_of_intersection. split; assumption. }
  unfold _window_matches_location. rewrite Hi, Hr.
  change (lowered []) with (∅ : gset string). rewrite set_nonempty_empty.
  cbn [negb]. rewrite andb_false_r.
  destruct (PyStr.truthy (country location)); now rewrite andb_false_r.
Qed.

Lemma window_country_alias_witness :
  _window_matches_location
    (mkVisibilityWindow ["USA"; "Canada"] [] "")
    (mkLocationQuery "Austin, TX" (Some "Austin") (Some "Texas") (Some "United States") None)
  = true.
Proof.
  apply (window_country_alias
           (mkVisibilityWindow ["USA"; "Canada"] [] "")
           (mkLocationQuery "Austin, TX" (Some "Austin") (Some "Texas")
              (Some "United States") None)
           "United States" "USA").
  - reflexivity.
  - discriminate.
  - apply (bool_decide_unpack _). vm_compute. exact I.
  - vm_compute. reflexivity.
  - reflexivity.
Defined.
